(** * go-find-duplicates: hashing engine, grouping store and removal

    A shallow embedding of the parts of the repository that decide how a
    file is fingerprinted ([service/file_hash.go]), how the worker count is
    chosen ([main.go], [setupParallelismOpt]) and how duplicates are removed
    ([report.go], [RemoveDuplicates]), together with the properties the
    specification states about them.

    Conventions.
    - Go's [int64] and [int] are [Z]; every quantity below is a file size, an
      offset or a small count, and the places where a bound matters say so.
    - [[]byte] is [list byte]; Go strings are [string].
    - A Go [(T, error)] result is [result T]; a bare [error] is
      [option error] ([None] is [nil]).
    - The operating system is a finite map from paths to files; [os.Lstat],
      [os.ReadFile], [File.ReadAt] and [os.Remove] are functions on it. *)

From Stdlib Require Import ZArith Lia List String Ascii Sorted.
From Stdlib.Strings Require Import Byte.
From stdpp Require Import base gmap strings list sorting pretty.

Set Warnings "-register-all".
Local Open Scope Z_scope.

(* ===================================================================== *)
(** ** Errors and results                                                 *)
(* ===================================================================== *)

(** Go [error] values that the embedded code can create or receive.
    [Wrap msg e] is [fmt.Errorf(msg + ": %w", e)], [Multi] is the combined
    error of go.uber.org/multierr. *)
Inductive error : Type :=
| ENOENT                                   (* no such file or directory *)
| EACCES                                   (* permission denied *)
| EISDIR                                   (* read on a directory *)
| EOF                                      (* io.EOF: short read *)
| ENegativeOffset                          (* ReadAt: negative offset *)
| Errorf (msg : string)                    (* fmt.Errorf without verb *)
| Wrap (msg : string) (e : error)          (* fmt.Errorf("...: %w", e) *)
| PathError (op path : string) (e : error) (* *fs.PathError *)
| Multi (errs : list error).               (* multierr's combined error *)

Inductive result (A : Type) : Type :=
| OK (a : A)
| Err (e : error).
Arguments OK {A} a.
Arguments Err {A} e.

Definition bind {A B} (r : result A) (k : A -> result B) : result B :=
  match r with
  | OK a => k a
  | Err e => Err e
  end.

(** [on_err r f] rewrites the error of [r], the shape of
    [if err != nil { return ..., f(err) }]. *)
Definition on_err {A} (r : result A) (f : error -> error) : result A :=
  match r with
  | OK a => OK a
  | Err e => Err (f e)
  end.

Notation "'let*' x ':=' r 'in' k" := (bind r (fun x => k))
  (at level 10, x name, r at level 100, k at level 200).

(* ===================================================================== *)
(** ** Bytes                                                              *)
(* ===================================================================== *)

Definition byte_to_Z (b : byte) : Z := Z.of_N (Byte.to_N b).

Definition byte_of_Z (z : Z) : byte :=
  match Byte.of_N (Z.to_N (z mod 256)) with
  | Some b => b
  | None => x00
  end.

Definition bytes_of_string (s : string) : list byte :=
  List.map byte_of_ascii (list_ascii_of_string s).

(** Slices indexed by [Z], the way Go indexes them: [takeZ n l] is
    [l[:n]] and [dropZ n l] is [l[n:]], cut at the ends of [l]. *)
Fixpoint takeZ {A} (n : Z) (l : list A) : list A :=
  match l with
  | [] => []
  | x :: rest => if 0 <? n then x :: takeZ (n - 1) rest else []
  end.

Fixpoint dropZ {A} (n : Z) (l : list A) : list A :=
  match l with
  | [] => []
  | x :: rest => if 0 <? n then dropZ (n - 1) rest else l
  end.

Definition lenZ {A} (l : list A) : Z := Z.of_nat (length l).

(** Big-endian bytes of a 32-bit word, most significant first. *)
Definition be32 (w : Z) : list byte :=
  [byte_of_Z (Z.shiftr w 24); byte_of_Z (Z.shiftr w 16);
   byte_of_Z (Z.shiftr w 8); byte_of_Z w].

(* ===================================================================== *)
(** ** encoding/hex                                                       *)
(* ===================================================================== *)

Module hex.

Definition hextable : string := "0123456789abcdef".

Definition digit (n : Z) : ascii :=
  match String.get (Z.to_nat n) hextable with
  | Some c => c
  | None => "0"%char
  end.

(** [hex.EncodeToString]: for every byte [v], [hextable[v>>4]] then
    [hextable[v&0x0f]]. *)
Fixpoint EncodeToString (src : list byte) : string :=
  match src with
  | [] => EmptyString
  | v :: rest =>
      String (digit (Z.shiftr (byte_to_Z v) 4))
        (String (digit (Z.land (byte_to_Z v) 15)) (EncodeToString rest))
  end.

(** [fromHexChar]: the value of a hexadecimal digit, either case. *)
Definition fromHexChar (c : ascii) : option Z :=
  let n := Z.of_nat (nat_of_ascii c) in
  if (48 <=? n) && (n <=? 57) then Some (n - 48)
  else if (97 <=? n) && (n <=? 102) then Some (n - 97 + 10)
  else if (65 <=? n) && (n <=? 70) then Some (n - 65 + 10)
  else None.

(** [hex.DecodeString]: two digits per byte, [None] on a character that is
    no digit or on an odd length. *)
Fixpoint DecodeString (s : string) : option (list byte) :=
  match s with
  | EmptyString => Some []
  | String p (String q rest) =>
      match fromHexChar p, fromHexChar q, DecodeString rest with
      | Some a, Some b, Some bytes =>
          Some (byte_of_Z (Z.lor (Z.shiftl a 4) b) :: bytes)
      | _, _, _ => None
      end
  | String _ EmptyString => None
  end.

End hex.

(* ===================================================================== *)
(** ** hash/crc32 (IEEE polynomial)                                       *)
(* ===================================================================== *)

Module crc32.

Definition IEEE : Z := 0xedb88320.
Definition mask32 : Z := 0xffffffff.

(** One entry of the table built by [simpleMakeTable]. *)
Definition tab_step (crc : Z) : Z :=
  if Z.testbit crc 0 then Z.lxor (Z.shiftr crc 1) IEEE else Z.shiftr crc 1.

Definition tab (i : Z) : Z :=
  tab_step (tab_step (tab_step (tab_step
    (tab_step (tab_step (tab_step (tab_step i))))))).

(** The loop body of [simpleUpdate]: [crc = tab[byte(crc)^v] ^ (crc >> 8)]. *)
Definition update_byte (crc : Z) (v : byte) : Z :=
  Z.lxor (tab (Z.lxor (Z.land crc 255) (byte_to_Z v))) (Z.shiftr crc 8).

(** [simpleUpdate]: complement, fold, complement. *)
Definition update (crc : Z) (p : list byte) : Z :=
  Z.lxor (fold_left update_byte p (Z.lxor crc mask32)) mask32.

Definition ChecksumIEEE (p : list byte) : Z := update 0 p.

End crc32.

(* ===================================================================== *)
(** ** crypto/sha256                                                      *)
(* ===================================================================== *)

Module sha256.

Definition w32 (x : Z) : Z := x mod 2 ^ 32.

Definition rotr (n x : Z) : Z :=
  w32 (Z.lor (Z.shiftr x n) (Z.shiftl x (32 - n))).

Definition Ch (x y z : Z) : Z :=
  Z.lxor (Z.land x y) (Z.land (Z.lxor x 0xffffffff) z).
Definition Maj (x y z : Z) : Z :=
  Z.lxor (Z.lxor (Z.land x y) (Z.land x z)) (Z.land y z).
Definition Sigma0 (x : Z) : Z :=
  Z.lxor (Z.lxor (rotr 2 x) (rotr 13 x)) (rotr 22 x).
Definition Sigma1 (x : Z) : Z :=
  Z.lxor (Z.lxor (rotr 6 x) (rotr 11 x)) (rotr 25 x).
Definition sigma0 (x : Z) : Z :=
  Z.lxor (Z.lxor (rotr 7 x) (rotr 18 x)) (Z.shiftr x 3).
Definition sigma1 (x : Z) : Z :=
  Z.lxor (Z.lxor (rotr 17 x) (rotr 19 x)) (Z.shiftr x 10).

(** The round constants are "the first 32 bits of the fractional parts of
    the cube roots of the first 64 primes", the initial hash value the same
    of the square roots of the first 8 (FIPS 180-4); both tables are
    computed here from that description. *)
Definition is_prime (n : Z) : bool :=
  (1 <? n) && forallb (fun d => negb (n mod Z.of_nat d =? 0))
                (seq 2 (Z.to_nat n - 2)).

Definition primes (count : nat) : list Z :=
  firstn count (filter is_prime (List.map Z.of_nat (seq 2 400))).

(** Integer cube root, one bit at a time from bit [bits - 1] down. *)
Fixpoint cbrt_bits (bits : nat) (n r : Z) : Z :=
  match bits with
  | O => r
  | S b =>
      let c := r + 2 ^ Z.of_nat b in
      if c * c * c <=? n then cbrt_bits b n c else cbrt_bits b n r
  end.

Definition frac_cbrt (p : Z) : Z := w32 (cbrt_bits 48 (p * 2 ^ 96) 0).
Definition frac_sqrt (p : Z) : Z := w32 (Z.sqrt (p * 2 ^ 64)).

Definition K : list Z := Eval vm_compute in List.map frac_cbrt (primes 64).

Definition init : list Z := Eval vm_compute in List.map frac_sqrt (primes 8).

(** The padding appended by [checkSum]: 0x80, zeros up to 56 mod 64, then
    the bit length as 8 big-endian bytes. *)
Definition padding (len : Z) : list byte :=
  let r := len mod 64 in
  let t := if r <? 56 then 56 - r else 64 + 56 - r in
  let bits := len * 8 in
  (byte_of_Z 128 :: repeat x00 (Z.to_nat (t - 1)))
    ++ be32 (Z.shiftr bits 32) ++ be32 bits.

Fixpoint words (n : nat) (p : list byte) : list Z :=
  match n with
  | O => []
  | S n' =>
      match p with
      | b0 :: b1 :: b2 :: b3 :: rest =>
          Z.lor (Z.lor (Z.shiftl (byte_to_Z b0) 24) (Z.shiftl (byte_to_Z b1) 16))
                (Z.lor (Z.shiftl (byte_to_Z b2) 8) (byte_to_Z b3))
            :: words n' rest
      | _ => []
      end
  end.

(** Message schedule: [w] holds the words computed so far. *)
Fixpoint schedule (k : nat) (w : list Z) : list Z :=
  match k with
  | O => w
  | S k' =>
      let t := length w in
      let g i := nth (t - i) w 0 in
      schedule k'
        (w ++ [w32 (sigma1 (g 2%nat) + g 7%nat + sigma0 (g 15%nat) + g 16%nat)])
  end.

Record regs := Regs { ra : Z; rb : Z; rc : Z; rd : Z;
                      re : Z; rf : Z; rg : Z; rh : Z }.

Definition round (s : regs) (kw : Z * Z) : regs :=
  let t1 := rh s + Sigma1 (re s) + Ch (re s) (rf s) (rg s) + fst kw + snd kw in
  let t2 := Sigma0 (ra s) + Maj (ra s) (rb s) (rc s) in
  Regs (w32 (t1 + t2)) (ra s) (rb s) (rc s)
       (w32 (rd s + t1)) (re s) (rf s) (rg s).

Definition regs_of (h : list Z) : regs :=
  Regs (nth 0 h 0) (nth 1 h 0) (nth 2 h 0) (nth 3 h 0)
       (nth 4 h 0) (nth 5 h 0) (nth 6 h 0) (nth 7 h 0).

(** [block]: one 64-byte chunk folded into the chaining value. *)
Definition block (h : list Z) (chunk : list byte) : list Z :=
  let w := schedule 48 (words 16 chunk) in
  let s0 := regs_of h in
  let s := fold_left round (combine K w) s0 in
  [w32 (ra s0 + ra s); w32 (rb s0 + rb s); w32 (rc s0 + rc s);
   w32 (rd s0 + rd s); w32 (re s0 + re s); w32 (rf s0 + rf s);
   w32 (rg s0 + rg s); w32 (rh s0 + rh s)].

Fixpoint blocks (n : nat) (h : list Z) (p : list byte) : list Z :=
  match n with
  | O => h
  | S n' =>
      match p with
      | [] => h
      | _ => blocks n' (block h (firstn 64 p)) (skipn 64 p)
      end
  end.

(** [sha256.Sum256]: the 32 digest bytes. *)
Definition Sum256 (data : list byte) : list byte :=
  let p := data ++ padding (Z.of_nat (length data)) in
  concat (List.map be32 (blocks (length p) init p)).

End sha256.

(* ===================================================================== *)
(** ** hash.Hash                                                          *)
(* ===================================================================== *)

(** The two implementations of the [hash.Hash] interface that [fileHash]
    chooses between.  A SHA-256 digest keeps what was written; a CRC32
    digest keeps the running checksum. *)
Inductive Hash : Type :=
| sha256_digest (written : list byte)
| crc32_digest (crc : Z).

Definition sha256_New : Hash := sha256_digest [].
Definition crc32_NewIEEE : Hash := crc32_digest 0.

(** [h.Write(p)]: neither implementation ever returns an error. *)
Definition Hash_Write (h : Hash) (p : list byte) : result Hash :=
  match h with
  | sha256_digest written => OK (sha256_digest (written ++ p))
  | crc32_digest crc => OK (crc32_digest (crc32.update crc p))
  end.

(** [h.Sum(nil)]. *)
Definition Hash_Sum (h : Hash) : list byte :=
  match h with
  | sha256_digest written => sha256.Sum256 written
  | crc32_digest crc => be32 crc
  end.

(* ===================================================================== *)
(** ** The file system seen through package os                            *)
(* ===================================================================== *)

Module os.

(** [fs.FileMode] bits. *)
Definition ModeDir : Z := Z.shiftl 1 31.
Definition ModeSymlink : Z := Z.shiftl 1 27.
Definition ModeDevice : Z := Z.shiftl 1 26.
Definition ModeNamedPipe : Z := Z.shiftl 1 25.
Definition ModeSocket : Z := Z.shiftl 1 24.
Definition ModeCharDevice : Z := Z.shiftl 1 21.
Definition ModeIrregular : Z := Z.shiftl 1 19.

Definition ModeType : Z :=
  Z.lor ModeDir (Z.lor ModeSymlink (Z.lor ModeNamedPipe
    (Z.lor ModeSocket (Z.lor ModeDevice (Z.lor ModeCharDevice ModeIrregular))))).

(** [FileMode.IsRegular]: [m&ModeType == 0]. *)
Definition IsRegular (m : Z) : bool := Z.land m ModeType =? 0.
Definition IsDir (m : Z) : bool := negb (Z.land m ModeDir =? 0).
Definition IsSymlink (m : Z) : bool := negb (Z.land m ModeSymlink =? 0).

(** A directory entry: its mode (type and permission bits), its bytes, the
    target when it is a symbolic link, and whether the entry may be
    unlinked (write permission on the parent directory). *)
Record File := mkFile {
  Mode : Z;
  Data : list byte;
  Target : string;
  Removable : bool
}.

(** Owner read permission, bit 0o400 (the process runs as the owner). *)
Definition Readable (f : File) : bool := Z.testbit (Mode f) 8.

Record FileInfo := mkFileInfo {
  fi_Mode : Z;
  fi_Size : Z
}.

(** [os.Lstat]: the entry itself, links are not followed. *)
Definition Lstat (fs : gmap string File) (path : string) : result FileInfo :=
  match fs !! path with
  | None => Err (PathError "lstat" path ENOENT)
  | Some f => OK (mkFileInfo (Mode f) (lenZ (Data f)))
  end.

(** Opening follows symbolic links, at most [n] of them. *)
Fixpoint follow (n : nat) (fs : gmap string File) (path : string)
  : option File :=
  match fs !! path with
  | None => None
  | Some f =>
      if IsSymlink (Mode f) then
        match n with
        | O => None
        | S n' => follow n' fs (Target f)
        end
      else Some f
  end.

(** [os.Open] for reading: the bytes the handle will serve. *)
Definition Open (fs : gmap string File) (path : string) : result (list byte) :=
  match follow 40 fs path with
  | None => Err (PathError "open" path ENOENT)
  | Some f =>
      if Readable f then OK (Data f)
      else Err (PathError "open" path EACCES)
  end.

(** [os.ReadFile]. *)
Definition ReadFile (fs : gmap string File) (path : string)
  : result (list byte) :=
  match follow 40 fs path with
  | None => Err (PathError "open" path ENOENT)
  | Some f =>
      if negb (Readable f) then Err (PathError "open" path EACCES)
      else if IsDir (Mode f) then Err (PathError "read" path EISDIR)
      else OK (Data f)
  end.

(** [file.ReadAt(b, off)] with [len(b) = n]: the [n] bytes at offset [off],
    or an error when fewer than [n] are there. *)
Definition ReadAt (file : list byte) (n : Z) (off : Z) : result (list byte) :=
  if off <? 0 then Err (PathError "readat" "" ENegativeOffset)
  else
    let b := takeZ n (dropZ off file) in
    if lenZ b <? n then Err EOF else OK b.

(** [os.Remove]: the new file system and the error. *)
Definition Remove (fs : gmap string File) (path : string)
  : gmap string File * option error :=
  match fs !! path with
  | None => (fs, Some (PathError "remove" path ENOENT))
  | Some f =>
      if Removable f then (delete path fs, None)
      else (fs, Some (PathError "remove" path EACCES))
  end.

End os.

(* ===================================================================== *)
(** ** go.uber.org/multierr                                               *)
(* ===================================================================== *)

Module multierr.

(** [multierr.Errors]: the errors a value combines. *)
Definition Errors (err : option error) : list error :=
  match err with
  | None => []
  | Some (Multi errs) => errs
  | Some e => [e]
  end.

(** [multierr.Append]: [nil] is the unit, and combined errors stay flat. *)
Definition Append (left right : option error) : option error :=
  match left, right with
  | None, _ => right
  | _, None => left
  | Some _, Some _ => Some (Multi (Errors left ++ Errors right))
  end.

End multierr.

(* ===================================================================== *)
(** ** Package bytesutil                                                  *)
(* ===================================================================== *)

Module bytesutil.

(** Modelled from the spec: the constant [bytesutil.KIBI], whose
    declaration is not among the embedded sources; the specification fixes
    the threshold [16 * KIBI] at 16 KiB, so [KIBI] is 1024. *)
Definition KIBI : Z := 1024.

End bytesutil.

(* ===================================================================== *)
(** ** Package entity                                                     *)
(* ===================================================================== *)

Module entity.

(** [entity.FileDigest], with the field names [file_hash.go] and
    [report.go] use. *)
Record FileDigest := mkFileDigest {
  FileExtension : string;
  FileSize : Z;
  FileHash : string
}.

#[global] Instance FileDigest_eq_dec : EqDecision FileDigest.
Proof. solve_decision. Defined.

#[global] Instance FileDigest_countable : Countable FileDigest.
Proof.
  refine (inj_countable'
            (fun d => (FileExtension d, FileSize d, FileHash d))
            (fun t => mkFileDigest t.1.1 t.1.2 t.2) _).
  by intros [].
Defined.

(** What [duplicates.Iterator()] hands to its consumer: the
    [(digest, paths)] pairs in iteration order. *)
Definition Groups : Type := list (FileDigest * list string).

(** Modelled from the spec: the type [entity.DigestToFiles], whose
    declaration is not among the embedded sources.  The specification
    describes it as an insertion-ordered key list paired with a mapping from
    key to the list of paths sharing that digest. *)
Record DigestToFiles := mkDigestToFiles {
  keys : list FileDigest;
  data : gmap FileDigest (list string)
}.

(** Modelled from the spec: the empty store, before any digest is seen
    (its constructor is not among the embedded sources). *)
Definition empty : DigestToFiles := mkDigestToFiles [] ∅.

(** Modelled from the spec: [add(digest, path)], not among the embedded
    sources.  "The first time a digest is seen it is appended to an
    iteration-order list; subsequent files with the same digest append to
    that digest's path list." *)
Definition add (m : DigestToFiles) (digest : FileDigest) (path : string)
  : DigestToFiles :=
  match data m !! digest with
  | Some paths => mkDigestToFiles (keys m) (<[digest := paths ++ [path]]> (data m))
  | None => mkDigestToFiles (keys m ++ [digest]) (<[digest := [path]]> (data m))
  end.

(** Modelled from the spec: [groups()], not among the embedded sources.
    It iterates, in key insertion order, over the digests with two or more
    paths. *)
Definition groups (m : DigestToFiles) : Groups :=
  flat_map (fun k =>
              match data m !! k with
              | Some paths => if (2 <=? length paths)%nat then [(k, paths)] else []
              | None => []
              end) (keys m).

(** Modelled from the spec: the store the pipeline leaves after one
    [add] per successfully hashed file. *)
Definition collect (hashed : list (FileDigest * string)) : DigestToFiles :=
  fold_left (fun m dp => add m dp.1 dp.2) hashed empty.

(** [FileDigest.String]: ["%v/%v/%v"] of the extension, the hash and the
    size as [bytesutil.BinaryFormat] prints it; [BinaryFormat] is not among
    the embedded sources and is a parameter. *)
Definition FileDigest_String (BinaryFormat : Z -> string) (f : FileDigest)
  : string :=
  FileExtension f +:+ "/" +:+ FileHash f +:+ "/" +:+ BinaryFormat (FileSize f).

End entity.

(* ===================================================================== *)
(** ** Package service: file_hash.go                                      *)
(* ===================================================================== *)

Module service.
Import entity.

Definition thresholdFileSize : Z := 16 * bytesutil.KIBI.

(** The three [ReadAt] calls of [readCrucialBytes], as (offset, length). *)
Definition firstRegion : Z * Z := (0, thresholdFileSize ÷ 2).
Definition middleRegion (fileSize : Z) : Z * Z :=
  (fileSize ÷ 2, thresholdFileSize ÷ 4).
Definition lastRegion (fileSize : Z) : Z * Z :=
  (fileSize - thresholdFileSize ÷ 4, thresholdFileSize ÷ 4).

(** [readCrucialBytes] reads the first few bytes, middle bytes and last few
    bytes of the file. *)
Definition readCrucialBytes (fs : gmap string os.File) (filePath : string)
    (fileSize : Z) : result (list byte) :=
  let* file := os.Open fs filePath in
  let* firstBytes :=
    on_err (os.ReadAt file firstRegion.2 firstRegion.1)
      (Wrap "couldn't read first few bytes (maybe file is corrupted?)") in
  let* middleBytes :=
    on_err (os.ReadAt file (middleRegion fileSize).2 (middleRegion fileSize).1)
      (Wrap "couldn't read middle bytes (maybe file is corrupted?)") in
  let* lastBytes :=
    on_err (os.ReadAt file (lastRegion fileSize).2 (lastRegion fileSize).1)
      (Wrap "couldn't read end bytes (maybe file is corrupted?)") in
  OK ((firstBytes ++ middleBytes) ++ lastBytes).

(** [fileHash] calculates the hash of the file provided.  If [isThorough]
    is true, then it uses SHA256 of the entire file.  Otherwise, it uses
    CRC32 of "crucial bytes" of the file. *)
Definition fileHash (fs : gmap string os.File) (path : string)
    (isThorough : bool) : result string :=
  let* fileInfo := on_err (os.Lstat fs path) (Wrap "couldn't stat") in
  if negb (os.IsRegular (os.fi_Mode fileInfo)) then
    Err (Errorf "can't compute hash of non-regular file")
  else
    let '(prefix, read) :=
      if isThorough then
        (EmptyString, os.ReadFile fs path)
      else if os.fi_Size fileInfo <=? thresholdFileSize then
        ("f"%string, os.ReadFile fs path)
      else
        ("s"%string, readCrucialBytes fs path (os.fi_Size fileInfo)) in
    let* bytes := on_err read (Wrap "couldn't calculate hash") in
    let h := if isThorough then sha256_New else crc32_NewIEEE in
    let* h' := on_err (Hash_Write h bytes) (Wrap "error while computing hash") in
    OK (prefix +:+ hex.EncodeToString (Hash_Sum h')).

Section GetDigest.

(** [utils.GetFileExt] is not among the embedded sources; [GetDigest] only
    stores its result. *)
Variable GetFileExt : string -> string.

(** [GetDigest] generates the [entity.FileDigest] of the file provided. *)
Definition GetDigest (fs : gmap string os.File) (path : string)
    (isThorough : bool) : result FileDigest :=
  let* info := os.Lstat fs path in
  let* h := fileHash fs path isThorough in
  OK (mkFileDigest (GetFileExt path) (os.fi_Size info) h).

End GetDigest.

(** Modelled from the spec: the aggregator of [FindDuplicates], not among
    the embedded sources.  It "folds the grouping store into summary
    statistics (total duplicate files, total reclaimable bytes)": one pass
    over the reported groups with two running totals. *)
Definition aggregate (gs : Groups) : Z * Z :=
  fold_left
    (fun acc g =>
       let numDuplicates := Z.of_nat (length g.2) - 1 in
       (acc.1 + numDuplicates, acc.2 + numDuplicates * FileSize g.1))
    gs (0, 0).

(** Modelled from the spec: [FindDuplicates] is not among the embedded
    sources.  Its [duplicateGroups] result is "the ordered sequence of (FileDigest,
    ordered list of absolute paths) for every digest shared by two or more
    files". *)
Definition duplicateGroups (m : DigestToFiles) : Groups := groups m.

(** Modelled from the spec: [FindDuplicates] is not among the embedded
    sources.  Its count of redundant copies is the first total of the aggregator. *)
Definition totalDuplicateCount (m : DigestToFiles) : Z :=
  (aggregate (duplicateGroups m)).1.

(** Modelled from the spec: [FindDuplicates] is not among the embedded
    sources.  Its count of reclaimable bytes is the second total of the aggregator. *)
Definition savingsBytes (m : DigestToFiles) : Z :=
  (aggregate (duplicateGroups m)).2.

(** Modelled from the spec: the hashing pipeline of [FindDuplicates], not
    among the embedded sources.  Every file is hashed once; a file whose
    hashing fails "is excluded from grouping" and stops nothing.  The
    results are taken in enumeration order. *)
Definition hashFiles (GetFileExt : string -> string)
    (fs : gmap string os.File) (isThorough : bool) (paths : list string)
  : list (FileDigest * string) :=
  omap (fun path =>
          match GetDigest GetFileExt fs path isThorough with
          | OK digest => Some (digest, path)
          | Err _ => None
          end) paths.

End service.

(* ===================================================================== *)
(** ** Package main: main.go and report.go                                *)
(* ===================================================================== *)

Module main.
Import entity.

Definition defaultParallelismValue : N := 0%N.

(** [lo.Ternary]. *)
Definition Ternary {A} (condition : bool) (ifOutput elseOutput : A) : A :=
  if condition then ifOutput else elseOutput.

(** [flags.getParallelism] as set up by [setupParallelismOpt]: [p] is the
    value of the [uint8] flag, [NumCPU] what [runtime.NumCPU()] returns. *)
Definition getParallelism (p : N) (NumCPU : Z) : Z :=
  if (p =? defaultParallelismValue)%N then
    let n := NumCPU in
    Ternary (n >? 1) (n - 1) 1
  else Z.of_N p.

(** The loop body [err = multierr.Append(err, os.Remove(path))] on the
    file system and the error so far. *)
Definition removeStep (st : gmap string os.File * option error)
    (path : string) : gmap string os.File * option error :=
  let r := os.Remove st.1 path in
  (r.1, multierr.Append st.2 r.2).

(** The inner loop of [RemoveDuplicates]: [for i, path := range paths] with
    its guard [if i > 0], entered at index [i]. *)
Fixpoint removeFrom (i : nat) (paths : list string)
    (st : gmap string os.File * option error)
  : gmap string os.File * option error :=
  match paths with
  | [] => st
  | path :: rest =>
      removeFrom (S i) rest (if (0 <? i)%nat then removeStep st path else st)
  end.

(** The outer loop: [for iter := duplicates.Iterator(); iter.HasNext();]. *)
Fixpoint removeGroups (iter : Groups)
    (st : gmap string os.File * option error)
  : gmap string os.File * option error :=
  match iter with
  | [] => st
  | (_, paths) :: more => removeGroups more (removeFrom 0 paths st)
  end.

(** [RemoveDuplicates]: [err] starts as [nil]. *)
Definition RemoveDuplicates (duplicates : Groups) (fs : gmap string os.File)
  : gmap string os.File * option error :=
  removeGroups duplicates (fs, None).

(** Conversion to [int64], and the wrap-around of [int64] arithmetic. *)
Definition int64 (z : Z) : Z := (z + 2 ^ 63) mod 2 ^ 64 - 2 ^ 63.

(** [flags.getMinSize] as set up by [setupMinSizeOpt]: the value [p] of
    the [uint64] flag, converted to [int64] and multiplied by
    [bytesutil.KIBI]. *)
Definition getMinSize (p : Z) : Z := int64 (int64 p * bytesutil.KIBI).

(** Go compares strings byte by byte; [sort.Strings] leaves a slice in
    increasing order. *)
Definition strLe (a b : string) : Prop := String.leb a b = true.

#[global] Instance strLe_dec : RelDecision strLe.
Proof. intros a b. unfold strLe. apply _. Defined.

Definition sort_Strings (paths : list string) : list string :=
  merge_sort strLe paths.

Definition TAB : string := String (ascii_of_nat 9) EmptyString.
Definition LF : string := String (ascii_of_nat 10) EmptyString.

(** [bb.WriteString(fmt.Sprintf("\t%s\n", path))]. *)
Definition writePath (bb : string) (path : string) : string :=
  bb +:+ (TAB +:+ path +:+ LF).

Section getReportAsText.

Variable BinaryFormat : Z -> string.

(** The loop of [getReportAsText] on the buffer [bb]: every group's slice
    is sorted in place, then a header and one line per path are written.
    The result is the buffer and the slices as the loop leaves them.
    ([bb.Grow] only reserves capacity.) *)
Fixpoint reportGroups (iter : Groups) (bb : string) : string * Groups :=
  match iter with
  | [] => (bb, [])
  | (digest, paths) :: more =>
      let paths := sort_Strings paths in
      let bb :=
        bb +:+ (FileDigest_String BinaryFormat digest +:+ ": "
                +:+ pretty (lenZ paths - 1) +:+ " duplicate(s)" +:+ LF) in
      let bb := fold_left writePath paths bb in
      let r := reportGroups more bb in
      (r.1, (digest, paths) :: r.2)
  end.

Definition getReportAsText (duplicates : Groups) : string * Groups :=
  reportGroups duplicates EmptyString.

End getReportAsText.

End main.

(* ===================================================================== *)
(** ** Vocabulary of the specification                                    *)
(* ===================================================================== *)

Module spec.
Import entity.

(** A byte region [(offset, length)] of a file covers the offsets
    [offset <= i < offset + length]. *)
Definition inRegion (r : Z * Z) (i : Z) : Prop := r.1 <= i < r.1 + r.2.

Definition disjoint (r1 r2 : Z * Z) : Prop :=
  forall i, ~ (inRegion r1 i /\ inRegion r2 i).

(** A region lies inside a file of [size] bytes. *)
Definition within (r : Z * Z) (size : Z) : Prop :=
  0 <= r.1 /\ 0 <= r.2 /\ r.1 + r.2 <= size.

(** The first [n] bytes, the [n] bytes starting at offset [off], and the
    last [n] bytes of [content]. *)
Definition firstBytes (n : Z) (content : list byte) : list byte :=
  takeZ n content.
Definition bytesAt (off n : Z) (content : list byte) : list byte :=
  takeZ n (dropZ off content).
Definition lastBytes (n : Z) (content : list byte) : list byte :=
  dropZ (lenZ content - n) content.

(** The crucial bytes in the specification's words: "the first threshold/2
    bytes, the threshold/4 bytes starting at the file's midpoint offset,
    and the last threshold/4 bytes of the file, concatenated in that
    order", with the threshold at 16 KiB. *)
Definition crucialBytes (content : list byte) : list byte :=
  firstBytes 8192 content
    ++ bytesAt (lenZ content / 2) 4096 content
    ++ lastBytes 4096 content.

(** The hash string in the specification's words. *)
Definition hashString (isThorough : bool) (content : list byte) : string :=
  if isThorough then
    hex.EncodeToString (sha256.Sum256 content)
  else if lenZ content <=? 16384 then
    "f" +:+ hex.EncodeToString (be32 (crc32.ChecksumIEEE content))
  else
    "s" +:+ hex.EncodeToString (be32 (crc32.ChecksumIEEE (crucialBytes content))).

(** Lowercase hexadecimal digits. *)
Definition lowerHex (c : ascii) : bool :=
  let n := nat_of_ascii c in
  ((48 <=? n) && (n <=? 57) || (97 <=? n) && (n <=? 102))%nat.

(** Every path a sequence of groups lists, and those at an index above 0. *)
Definition allPaths (gs : Groups) : list string :=
  flat_map (fun g => g.2) gs.

Definition laterPaths (gs : Groups) : list string :=
  flat_map (fun g => tail g.2) gs.

(** [p] is the lexicographically first path of [paths]. *)
Definition lexFirst (paths : list string) (p : string) : Prop :=
  p ∈ paths /\ forall q, q ∈ paths -> String.leb p q = true.

(** What is at [p] once [os.Remove] has been tried on it: nothing, unless
    the entry cannot be unlinked. *)
Definition afterRemove (fs : gmap string os.File) (p : string)
  : option os.File :=
  match fs !! p with
  | Some f => if os.Removable f then None else Some f
  | None => None
  end.

(** The errors [os.Remove] reports for [paths] on the file system [fs]. *)
Definition removeErrors (fs : gmap string os.File) (paths : list string)
  : list error :=
  omap (fun p => (os.Remove fs p).2) paths.

(** [paths] is in ascending order, as [sort.Strings] leaves a slice. *)
Definition ascending (paths : list string) : Prop :=
  StronglySorted (fun a b => String.leb a b = true) paths.

(** Removal leaves the path at index 0 of every group as it was. *)
Definition keepsIndex0 (gs : Groups) (fs fs' : gmap string os.File) : Prop :=
  forall d paths p, (d, paths) ∈ gs -> paths !! 0%nat = Some p ->
    fs' !! p = fs !! p.

(** The removal contract as the specification words it: the
    lexicographically first path of every group is retained and every
    other path of the group is gone. *)
Definition keepsLexFirst (gs : Groups) (fs fs' : gmap string os.File) : Prop :=
  forall d paths p, (d, paths) ∈ gs -> lexFirst paths p ->
    fs' !! p = fs !! p /\ forall q, q ∈ paths -> q ≠ p -> fs' !! q = None.

Definition sumZ (l : list Z) : Z := fold_right Z.add 0 l.

(** The paths hashed to [d], in the order they were hashed. *)
Definition pathsOf (d : FileDigest) (hashed : list (FileDigest * string))
  : list string :=
  (filter (fun dp => dp.1 = d) hashed).*2.

(** The three ways a regular file is hashed, and the digest bytes each
    one encodes. *)
Inductive regime : Type := Thorough | FastFull | FastSampled.

Definition regimeOf (isThorough : bool) (content : list byte) : regime :=
  if isThorough then Thorough
  else if lenZ content <=? 16384 then FastFull
  else FastSampled.

Definition rawDigest (isThorough : bool) (content : list byte) : list byte :=
  if isThorough then sha256.Sum256 content
  else if lenZ content <=? 16384 then be32 (crc32.ChecksumIEEE content)
  else be32 (crc32.ChecksumIEEE (crucialBytes content)).

(** The offsets of a file of [size] bytes that none of the three reads of
    [readCrucialBytes] covers. *)
Definition unsampled (size i : Z) : Prop :=
  8192 <= i < size / 2 \/ size / 2 + 4096 <= i < size - 4096.

(** Two sequences of groups with the same digests in the same order, each
    group listing the same paths in some order. *)
Definition samePaths (gs1 gs2 : Groups) : Prop :=
  Forall2 (fun g1 g2 => g1.1 = g2.1 /\ g1.2 ≡ₚ g2.2) gs1 gs2.

End spec.

(* ===================================================================== *)
(** ** Sample inputs                                                      *)
(* ===================================================================== *)

Module sample.
Import entity.

(** A 9-byte regular file, mode 0644 (decimal 420). *)
Definition small : os.File :=
  os.mkFile 420 (bytes_of_string "123456789") "" true.

(** A 20000-byte regular file, mode 0644 (decimal 420). *)
Definition big : os.File :=
  os.mkFile 420
    (flat_map (fun _ => bytes_of_string "go-find-duplicates; ")
       (seq 0 (Z.to_nat 1000))) "" true.

(** A symbolic link to the small file, and the directory holding it. *)
Definition link : os.File :=
  os.mkFile (Z.lor os.ModeSymlink 511) [] "/a/1.txt" true.
Definition dir : os.File :=
  os.mkFile (Z.lor os.ModeDir 493) [] "" false.

Definition disk : gmap string os.File :=
  <["/a/1.txt" := small]> (<["/a/big.bin" := big]>
    (<["/a/link" := link]> (<["/a" := dir]> ∅))).

(** A file that cannot be unlinked. *)
Definition pinned : os.File :=
  os.mkFile 420 (bytes_of_string "123456789") "" false.

Definition digest : FileDigest := mkFileDigest ".txt" 9 "fcbf43926".

(** The group of the specification's removal scenario, on a disk that
    holds both files. *)
Definition pair : Groups := [(digest, ["/a/2.txt"; "/a/1.txt"])].
Definition pairDisk : gmap string os.File :=
  <["/a/1.txt" := small]> (<["/a/2.txt" := small]> ∅).

(** A group of three whose second file cannot be unlinked. *)
Definition triple : Groups := [(digest, ["/b/2.txt"; "/b/1.txt"; "/b/3.txt"])].
Definition tripleDisk : gmap string os.File :=
  <["/b/1.txt" := pinned]> (<["/b/2.txt" := small]> (<["/b/3.txt" := small]> ∅)).

(** Three copies of a 10-byte file, one other file and a link. *)
Definition tenBytes : os.File :=
  os.mkFile 420 (bytes_of_string "0123456789") "" true.
Definition copiesDisk : gmap string os.File :=
  <["/c/1.txt" := tenBytes]> (<["/c/x.txt" := small]>
    (<["/c/2.txt" := tenBytes]> (<["/c/3.txt" := tenBytes]>
      (<["/c/l.txt" := link]> ∅)))).
Definition copiesPaths : list string :=
  ["/c/1.txt"; "/c/l.txt"; "/c/x.txt"; "/c/2.txt"; "/c/3.txt"].

(** The big file with its byte at offset 9000 replaced, and a file
    nobody may read (mode 0200, decimal 128). *)
Definition bigEdited : os.File :=
  os.mkFile 420 (<[Z.to_nat 9000 := x00]> (os.Data big)) "" true.
Definition writeOnly : os.File :=
  os.mkFile 128 (bytes_of_string "123456789") "" true.
Definition disk2 : gmap string os.File :=
  <["/a/big2.bin" := bigEdited]> (<["/a/secret" := writeOnly]> disk).

(** A group that lists one path twice. *)
Definition repeated : Groups := [(digest, ["/a/1.txt"; "/a/1.txt"])].

(** A store whose groups hold at most one path each. *)
Definition singles : Groups := [(digest, ["/a/1.txt"]); (digest, [])].

Definition ext (path : string) : string :=
  String.substring (String.length path - 4) 4 path.

End sample.

(* ===================================================================== *)
(** * Properties                                                          *)
(* ===================================================================== *)

(** ** Results *)

Lemma bind_OK {A B} (r : result A) (k : A -> result B) (b : B) :
  bind r k = OK b -> exists a, r = OK a /\ k a = OK b.
Proof. destruct r as [a|e]; simpl; [eauto | discriminate]. Qed.

(** ** File modes *)

Module ModeFacts.
Import os.

Lemma land_ModeType_0 (m : Z) :
  Z.land m ModeType = 0 ->
  Z.land m ModeDir = 0 /\ Z.land m ModeSymlink = 0
  /\ Z.land m ModeDevice = 0.
Proof.
  unfold ModeType. rewrite !Z.land_lor_distr_r, !Z.lor_eq_0_iff. tauto.
Qed.

(** A mode with the symlink, directory or device bit set is not regular,
    whatever its other bits. *)
Lemma type_bit_not_regular (m : Z) :
  Z.land m ModeSymlink <> 0 \/ Z.land m ModeDir <> 0
  \/ Z.land m ModeDevice <> 0 ->
  IsRegular m = false.
Proof.
  intros Hbit. unfold IsRegular. apply Z.eqb_neq. intros H0.
  destruct (land_ModeType_0 m H0) as (Hdir & Hsym & Hdev). tauto.
Qed.

Lemma IsRegular_not_symlink (m : Z) :
  IsRegular m = true -> IsSymlink m = false /\ IsDir m = false.
Proof.
  unfold IsRegular, IsSymlink, IsDir. intros H%Z.eqb_eq.
  destruct (land_ModeType_0 m H) as (-> & -> & _). done.
Qed.

(** The kinds the specification names are not regular. *)
Lemma kinds_not_regular :
  IsRegular ModeSymlink = false /\ IsRegular ModeDir = false
  /\ IsRegular ModeDevice = false /\ IsRegular ModeCharDevice = false
  /\ IsRegular ModeNamedPipe = false /\ IsRegular ModeSocket = false.
Proof. repeat split; reflexivity. Qed.

(** No type bit lies below bit 19. *)
Lemma ModeType_low_bits (n : Z) : 0 <= n < 19 -> Z.testbit ModeType n = false.
Proof.
  intros Hn. change ModeType with (Z.shiftl 4581 19).
  apply Z.shiftl_spec_low. lia.
Qed.

(** A plain file with permission bits only is regular. *)
Lemma perm_bits_regular (perm : Z) :
  0 <= perm < 2 ^ 9 -> IsRegular perm = true.
Proof.
  intros Hp. unfold IsRegular. apply Z.eqb_eq, Z.bits_inj'. intros n Hn.
  rewrite Z.land_spec, Z.bits_0.
  destruct (Z.ltb_spec n 9).
  - rewrite ModeType_low_bits by lia. apply andb_false_r.
  - rewrite (Z.bits_above_log2 perm n); [done | lia |].
    destruct (Z.eq_dec perm 0) as [-> | Hne]; [change (Z.log2 0) with 0; lia|].
    apply Z.log2_lt_pow2; [lia|].
    pose proof (Z.pow_le_mono_r 2 9 n); lia.
Qed.

Lemma regular_opens (fs : gmap string File) (path : string) (f : File) :
  fs !! path = Some f -> IsRegular (Mode f) = true ->
  follow 40 fs path = Some f.
Proof.
  intros Hf [Hs _]%IsRegular_not_symlink.
  change (follow 40 fs path)
    with (match fs !! path with
          | None => None
          | Some f => if IsSymlink (Mode f) then follow 39 fs (Target f) else Some f
          end).
  by rewrite Hf, Hs.
Qed.

End ModeFacts.

(** ** Slices *)

Lemma takeZ_firstn {A} (n : Z) (l : list A) :
  takeZ n l = firstn (Z.to_nat n) l.
Proof.
  revert n. induction l as [|x rest IH]; intros n; simpl.
  - by rewrite firstn_nil.
  - destruct (Z.ltb_spec 0 n).
    + replace (Z.to_nat n) with (S (Z.to_nat (n - 1))) by lia.
      simpl. by rewrite IH.
    + by replace (Z.to_nat n) with O by lia.
Qed.

Lemma dropZ_skipn {A} (n : Z) (l : list A) :
  dropZ n l = skipn (Z.to_nat n) l.
Proof.
  revert n. induction l as [|x rest IH]; intros n; simpl.
  - by rewrite skipn_nil.
  - destruct (Z.ltb_spec 0 n).
    + replace (Z.to_nat n) with (S (Z.to_nat (n - 1))) by lia.
      simpl. by rewrite IH.
    + by replace (Z.to_nat n) with O by lia.
Qed.

Lemma lenZ_takeZ {A} (n : Z) (l : list A) :
  lenZ (takeZ n l) = Z.max 0 (Z.min n (lenZ l)).
Proof. unfold lenZ. rewrite takeZ_firstn, length_firstn. lia. Qed.

Lemma lenZ_dropZ {A} (n : Z) (l : list A) :
  lenZ (dropZ n l) = lenZ l - Z.max 0 (Z.min n (lenZ l)).
Proof. unfold lenZ. rewrite dropZ_skipn, length_skipn. lia. Qed.

Lemma lenZ_app {A} (l1 l2 : list A) : lenZ (l1 ++ l2) = lenZ l1 + lenZ l2.
Proof. unfold lenZ. rewrite length_app. lia. Qed.

Lemma dropZ_nonpos {A} (n : Z) (l : list A) : n <= 0 -> dropZ n l = l.
Proof.
  intros Hn. destruct l as [|x rest]; [done|]. simpl.
  by destruct (Z.ltb_spec 0 n); [lia|].
Qed.

Lemma takeZ_all {A} (n : Z) (l : list A) : lenZ l <= n -> takeZ n l = l.
Proof.
  unfold lenZ. intros Hle. rewrite takeZ_firstn. apply firstn_all2. lia.
Qed.

(** ** Hashing engine *)

Module HashingEngine.
Import os service spec.

Lemma thresholdFileSize_eq : thresholdFileSize = 16384.
Proof. reflexivity. Qed.

Lemma regions_eq (fileSize : Z) :
  firstRegion = (0, 8192)
  /\ middleRegion fileSize = (fileSize ÷ 2, 4096)
  /\ lastRegion fileSize = (fileSize - 4096, 4096).
Proof. repeat split. Qed.

(** A read that lies inside the file returns exactly the bytes asked for. *)
Lemma ReadAt_within (file : list byte) (n off : Z) :
  within (off, n) (lenZ file) ->
  ReadAt file n off = OK (bytesAt off n file).
Proof.
  intros (Hoff & Hn & Hle). simpl in *. unfold ReadAt, bytesAt.
  destruct (Z.ltb_spec off 0); [lia|].
  rewrite lenZ_takeZ, lenZ_dropZ.
  destruct (Z.ltb_spec (Z.max 0 (Z.min n (lenZ file - Z.max 0 (Z.min off (lenZ file))))) n);
    [lia | done].
Qed.

(** A read that runs past the end of the file is an error. *)
Lemma ReadAt_short (file : list byte) (n off : Z) :
  0 <= off -> 0 < n -> lenZ file < off + n ->
  ReadAt file n off = Err EOF.
Proof.
  intros Hoff Hn Hlt. unfold ReadAt.
  destruct (Z.ltb_spec off 0); [lia|].
  rewrite lenZ_takeZ, lenZ_dropZ.
  destruct (Z.ltb_spec (Z.max 0 (Z.min n (lenZ file - Z.max 0 (Z.min off (lenZ file))))) n);
    [done | lia].
Qed.

Lemma regions_within (fileSize : Z) :
  thresholdFileSize < fileSize ->
  within firstRegion fileSize
  /\ within (middleRegion fileSize) fileSize
  /\ within (lastRegion fileSize) fileSize.
Proof.
  rewrite thresholdFileSize_eq. intros Hsz.
  destruct (regions_eq fileSize) as (-> & -> & ->).
  unfold within; simpl.
  rewrite Z.quot_div_nonneg by lia.
  pose proof (Z.div_mod fileSize 2 ltac:(lia)).
  pose proof (Z.mod_pos_bound fileSize 2 ltac:(lia)).
  lia.
Qed.

(** What the three reads return on a handle of [fileSize] bytes. *)
Lemma readCrucialBytes_reads (fs : gmap string File) (path : string)
    (file : list byte) (fileSize : Z) :
  Open fs path = OK file -> lenZ file = fileSize ->
  thresholdFileSize < fileSize ->
  readCrucialBytes fs path fileSize =
    OK ((bytesAt 0 8192 file ++ bytesAt (fileSize ÷ 2) 4096 file)
          ++ bytesAt (fileSize - 4096) 4096 file).
Proof.
  intros Hopen <- Hsz.
  destruct (regions_within _ Hsz) as (H1 & H2 & H3).
  unfold readCrucialBytes. rewrite Hopen. cbn [bind].
  destruct (regions_eq (lenZ file)) as (E1 & E2 & E3).
  rewrite E1, E2, E3 in *. cbn [fst snd] in *.
  rewrite (ReadAt_within _ _ _ H1), (ReadAt_within _ _ _ H2),
    (ReadAt_within _ _ _ H3).
  reflexivity.
Qed.

Lemma crucialBytes_reads (content : list byte) :
  16384 < lenZ content ->
  (bytesAt 0 8192 content ++ bytesAt (lenZ content ÷ 2) 4096 content)
    ++ bytesAt (lenZ content - 4096) 4096 content
  = crucialBytes content.
Proof.
  intros Hsz. unfold crucialBytes, firstBytes, lastBytes, bytesAt.
  rewrite (dropZ_nonpos 0) by lia.
  rewrite <- app_assoc. rewrite Z.quot_div_nonneg by (unfold lenZ in *; lia).
  f_equal. f_equal. apply takeZ_all.
  rewrite lenZ_dropZ. lia.
Qed.

Lemma lenZ_crucialBytes (content : list byte) :
  16384 < lenZ content -> lenZ (crucialBytes content) = 16384.
Proof.
  intros Hsz. unfold crucialBytes, firstBytes, bytesAt, lastBytes.
  rewrite !lenZ_app, !lenZ_takeZ, !lenZ_dropZ.
  pose proof (Z.div_mod (lenZ content) 2 ltac:(lia)).
  pose proof (Z.mod_pos_bound (lenZ content) 2 ltac:(lia)).
  lia.
Qed.

Lemma digit_lowerHex (v : byte) :
  lowerHex (hex.digit (Z.shiftr (byte_to_Z v) 4)) = true
  /\ lowerHex (hex.digit (Z.land (byte_to_Z v) 15)) = true.
Proof. destruct v; split; reflexivity. Qed.

Lemma EncodeToString_lowerHex (src : list byte) :
  forallb lowerHex (list_ascii_of_string (hex.EncodeToString src)) = true.
Proof.
  induction src as [|v rest IH]; [done|].
  destruct (digit_lowerHex v) as [Hhi Hlo].
  cbn [hex.EncodeToString list_ascii_of_string forallb].
  by rewrite Hhi, Hlo, IH.
Qed.

Lemma EncodeToString_length (src : list byte) :
  String.length (hex.EncodeToString src) = (2 * length src)%nat.
Proof.
  induction src as [|v rest IH]; [done|].
  cbn [hex.EncodeToString String.length length]. rewrite IH. lia.
Qed.

(** [fileHash] once the stat has succeeded on a regular file: what is read,
    then how it is hashed and tagged. *)
Lemma fileHash_regular (fs : gmap string File) (path : string)
    (isThorough : bool) (f : File) :
  fs !! path = Some f -> IsRegular (Mode f) = true ->
  fileHash fs path isThorough =
    let* bytes :=
      on_err (if isThorough then ReadFile fs path
              else if lenZ (Data f) <=? thresholdFileSize then ReadFile fs path
              else readCrucialBytes fs path (lenZ (Data f)))
        (Wrap "couldn't calculate hash") in
    OK ((if isThorough then EmptyString
         else if lenZ (Data f) <=? thresholdFileSize then "f" else "s")
        +:+ hex.EncodeToString
              (if isThorough then sha256.Sum256 bytes
               else be32 (crc32.ChecksumIEEE bytes))).
Proof.
  intros Hf Hreg. unfold fileHash, Lstat. rewrite Hf.
  cbn [on_err bind fi_Mode fi_Size]. rewrite Hreg. cbn [negb].
  destruct isThorough; [|destruct (lenZ (Data f) <=? thresholdFileSize)];
    (destruct (on_err _ _) as [bytes|e]; [|reflexivity]); reflexivity.
Qed.

End HashingEngine.

Module Hashing.
Import os service spec HashingEngine.

(** C7. For every file larger than the 16 KiB threshold, the three regions
    [readCrucialBytes] reads, namely bytes [0, 8192), bytes
    [size/2, size/2 + 4096) and bytes [size - 4096, size), share no byte
    offset pairwise. *)
Theorem crucial_regions_disjoint (fileSize : Z) :
  thresholdFileSize < fileSize ->
  (firstRegion = (0, 8192)
   /\ middleRegion fileSize = (fileSize / 2, 4096)
   /\ lastRegion fileSize = (fileSize - 4096, 4096))
  /\ disjoint firstRegion (middleRegion fileSize)
  /\ disjoint (middleRegion fileSize) (lastRegion fileSize)
  /\ disjoint firstRegion (lastRegion fileSize).
Proof.
  rewrite thresholdFileSize_eq. intros Hsz.
  destruct (regions_eq fileSize) as (-> & -> & ->).
  rewrite Z.quot_div_nonneg by lia.
  pose proof (Z.div_mod fileSize 2 ltac:(lia)).
  pose proof (Z.mod_pos_bound fileSize 2 ltac:(lia)).
  split; [done|].
  unfold disjoint, inRegion; simpl.
  repeat split; intros i; lia.
Qed.

Lemma crucial_regions_disjoint_witness :
  disjoint firstRegion (middleRegion 16385)
  /\ disjoint (middleRegion 16385) (lastRegion 16385)
  /\ disjoint firstRegion (lastRegion 16385).
Proof.
  apply (crucial_regions_disjoint 16385). reflexivity.
Defined.

(** C9. For every file size above 16384, each of the three reads of
    [readCrucialBytes] lies inside the file (offset + length <= size); so
    whenever the opened file still has the length that was passed in, none
    of the three [ReadAt] calls is short, and [readCrucialBytes] returns the
    16384 sampled bytes: the first 8192, the 4096 at the midpoint and the
    last 4096. *)
Theorem readCrucialBytes_reads_in_bounds (fileSize : Z) :
  16384 < fileSize ->
  (within firstRegion fileSize
   /\ within (middleRegion fileSize) fileSize
   /\ within (lastRegion fileSize) fileSize)
  /\ forall (fs : gmap string File) (path : string) (file : list byte),
       Open fs path = OK file -> lenZ file = fileSize ->
       (ReadAt file firstRegion.2 firstRegion.1
          = OK (bytesAt firstRegion.1 firstRegion.2 file)
        /\ ReadAt file (middleRegion fileSize).2 (middleRegion fileSize).1
          = OK (bytesAt (middleRegion fileSize).1 (middleRegion fileSize).2 file)
        /\ ReadAt file (lastRegion fileSize).2 (lastRegion fileSize).1
          = OK (bytesAt (lastRegion fileSize).1 (lastRegion fileSize).2 file))
       /\ readCrucialBytes fs path fileSize = OK (crucialBytes file)
       /\ lenZ (crucialBytes file) = 16384.
Proof.
  intros Hsz. pose proof (regions_within fileSize Hsz) as Hw.
  split; [exact Hw|].
  intros fs path file Hopen Hlen.
  split; [|split].
  - subst fileSize. destruct Hw as (H1 & H2 & H3).
    destruct (regions_eq (lenZ file)) as (E1 & E2 & E3).
    rewrite E1, E2, E3 in *. cbn [fst snd].
    by rewrite (ReadAt_within _ _ _ H1), (ReadAt_within _ _ _ H2),
      (ReadAt_within _ _ _ H3).
  - rewrite (readCrucialBytes_reads fs path file fileSize Hopen Hlen Hsz).
    subst fileSize. by rewrite (crucialBytes_reads file Hsz).
  - subst fileSize. by apply lenZ_crucialBytes.
Qed.

Lemma readCrucialBytes_reads_in_bounds_witness :
  readCrucialBytes sample.disk "/a/big.bin" 20000
    = OK (crucialBytes (Data sample.big))
  /\ lenZ (crucialBytes (Data sample.big)) = 16384.
Proof.
  apply (proj2 (readCrucialBytes_reads_in_bounds 20000 eq_refl)
           sample.disk "/a/big.bin" (Data sample.big)).
  - reflexivity.
  - vm_compute. reflexivity.
Defined.

(** C3. For every file larger than the 16 KiB threshold, the bytes hashed
    in fast mode are the first threshold/2 = 8192 bytes, then the
    threshold/4 = 4096 bytes starting at offset size/2, then the last
    threshold/4 = 4096 bytes of the file, in this order: 16384 bytes
    whatever the size of the file. *)
Theorem readCrucialBytes_crucialBytes (fs : gmap string File) (path : string)
    (content : list byte) :
  Open fs path = OK content ->
  thresholdFileSize < lenZ content ->
  readCrucialBytes fs path (lenZ content) =
    OK (firstBytes (thresholdFileSize / 2) content
          ++ bytesAt (lenZ content / 2) (thresholdFileSize / 4) content
          ++ lastBytes (thresholdFileSize / 4) content)
  /\ lenZ (firstBytes (thresholdFileSize / 2) content) = 8192
  /\ lenZ (bytesAt (lenZ content / 2) (thresholdFileSize / 4) content) = 4096
  /\ lenZ (lastBytes (thresholdFileSize / 4) content) = 4096
  /\ lenZ (firstBytes (thresholdFileSize / 2) content
             ++ bytesAt (lenZ content / 2) (thresholdFileSize / 4) content
             ++ lastBytes (thresholdFileSize / 4) content) = 16384.
Proof.
  intros Hopen Hsz.
  rewrite (readCrucialBytes_reads fs path content _ Hopen eq_refl Hsz).
  rewrite (crucialBytes_reads content Hsz).
  rewrite thresholdFileSize_eq in *.
  change (16384 / 2) with 8192. change (16384 / 4) with 4096.
  split; [reflexivity|].
  unfold firstBytes, bytesAt, lastBytes.
  rewrite !lenZ_app, !lenZ_takeZ, !lenZ_dropZ.
  pose proof (Z.div_mod (lenZ content) 2 ltac:(lia)).
  pose proof (Z.mod_pos_bound (lenZ content) 2 ltac:(lia)).
  lia.
Qed.

Lemma readCrucialBytes_crucialBytes_witness :
  readCrucialBytes sample.disk "/a/big.bin" (lenZ (Data sample.big))
    = OK (firstBytes (thresholdFileSize / 2) (Data sample.big)
            ++ bytesAt (lenZ (Data sample.big) / 2) (thresholdFileSize / 4)
                 (Data sample.big)
            ++ lastBytes (thresholdFileSize / 4) (Data sample.big)).
Proof.
  apply (readCrucialBytes_crucialBytes sample.disk "/a/big.bin"
           (Data sample.big)).
  - reflexivity.
  - vm_compute. reflexivity.
Defined.

(** C2. For every regular file and thorough flag, the hash string
    [fileHash] produces is: in thorough mode the lowercase hex SHA-256 of the
    whole content, without prefix; in fast mode with at most 16 KiB, "f" and
    the lowercase hex CRC32 of the whole content; in fast mode above 16 KiB,
    "s" and the lowercase hex CRC32 of the crucial bytes.  The string is
    produced whenever the file can be opened for reading; otherwise the
    result is the error of the open. *)
Theorem fileHash_hashString (fs : gmap string File) (path : string)
    (isThorough : bool) (f : File) :
  fs !! path = Some f -> IsRegular (Mode f) = true ->
  fileHash fs path isThorough =
    (if Readable f then OK (hashString isThorough (Data f))
     else Err (Wrap "couldn't calculate hash" (PathError "open" path EACCES)))
  /\ hashString isThorough (Data f) =
     (if isThorough then
        hex.EncodeToString (sha256.Sum256 (Data f))
      else if lenZ (Data f) <=? 16 * 1024 then
        "f" +:+ hex.EncodeToString (be32 (crc32.ChecksumIEEE (Data f)))
      else
        "s" +:+ hex.EncodeToString
                  (be32 (crc32.ChecksumIEEE (crucialBytes (Data f)))))
  /\ forall digest,
       forallb lowerHex (list_ascii_of_string (hex.EncodeToString digest)) = true.
Proof.
  intros Hf Hreg.
  split; [|split; [reflexivity | apply EncodeToString_lowerHex]].
  pose proof (ModeFacts.regular_opens fs path f Hf Hreg) as Hfollow.
  destruct (ModeFacts.IsRegular_not_symlink _ Hreg) as [_ Hdir].
  rewrite (fileHash_regular fs path isThorough f Hf Hreg).
  unfold hashString. change 16384 with thresholdFileSize.
  destruct (Readable f) eqn:Hread.
  - assert (HReadFile : ReadFile fs path = OK (Data f)).
    { unfold ReadFile. by rewrite Hfollow, Hread, Hdir. }
    assert (HOpen : Open fs path = OK (Data f)).
    { unfold Open. by rewrite Hfollow, Hread. }
    destruct isThorough.
    + rewrite HReadFile. reflexivity.
    + destruct (Z.leb_spec (lenZ (Data f)) thresholdFileSize) as [Hle|Hgt].
      * rewrite HReadFile. reflexivity.
      * rewrite (readCrucialBytes_reads fs path (Data f) _ HOpen eq_refl Hgt).
        rewrite (crucialBytes_reads (Data f) Hgt). reflexivity.
  - assert (HReadFile : ReadFile fs path = Err (PathError "open" path EACCES)).
    { unfold ReadFile. by rewrite Hfollow, Hread. }
    assert (HOpen : readCrucialBytes fs path (lenZ (Data f))
                    = Err (PathError "open" path EACCES)).
    { unfold readCrucialBytes, Open. by rewrite Hfollow, Hread. }
    destruct isThorough; [by rewrite HReadFile|].
    destruct (lenZ (Data f) <=? thresholdFileSize);
      [by rewrite HReadFile | by rewrite HOpen].
Qed.

Lemma fileHash_hashString_witness :
  fileHash sample.disk "/a/1.txt" false = OK "fcbf43926"%string
  /\ fileHash sample.disk "/a/1.txt" true
     = OK "15e2b0d3c33891ebb0f1ef609ec419420c20e320ce94c65fbc8c3312448eb225"%string
  /\ fileHash sample.disk "/a/big.bin" false = OK "s5754134b"%string.
Proof.
  split; [|split].
  - refine (eq_trans (proj1 (fileHash_hashString sample.disk "/a/1.txt" false
                               sample.small eq_refl eq_refl)) _).
    vm_compute. reflexivity.
  - refine (eq_trans (proj1 (fileHash_hashString sample.disk "/a/1.txt" true
                               sample.small eq_refl eq_refl)) _).
    vm_compute. reflexivity.
  - refine (eq_trans (proj1 (fileHash_hashString sample.disk "/a/big.bin" false
                               sample.big eq_refl eq_refl)) _).
    vm_compute. reflexivity.
Defined.

(** C6. For every path whose lstat reports a non-regular file (symbolic
    link, directory, device), [GetDigest] returns an error and no
    [FileDigest]; a [FileDigest] is produced only when the lstat of the path
    reports a regular file. *)
Theorem GetDigest_regular_only (GetFileExt : string -> string)
    (fs : gmap string File) (path : string) (isThorough : bool) :
  (forall info, Lstat fs path = OK info -> IsRegular (fi_Mode info) = false ->
     GetDigest GetFileExt fs path isThorough
       = Err (Errorf "can't compute hash of non-regular file"))
  /\ (forall d, GetDigest GetFileExt fs path isThorough = OK d ->
       exists info, Lstat fs path = OK info
                    /\ IsRegular (fi_Mode info) = true
                    /\ entity.FileSize d = fi_Size info)
  /\ (forall m, Z.land m ModeSymlink <> 0 \/ Z.land m ModeDir <> 0
                \/ Z.land m ModeDevice <> 0 ->
       IsRegular m = false).
Proof.
  unfold GetDigest, fileHash. split; [|split].
  - intros info -> Hreg. cbn [bind on_err]. by rewrite Hreg.
  - intros d Hd. destruct (Lstat fs path) as [info|e]; [|discriminate].
    exists info. cbn [bind on_err] in Hd.
    destruct (IsRegular (fi_Mode info)); [|discriminate].
    split; [done|]. split; [done|].
    cbn [negb] in Hd. apply bind_OK in Hd as (h & _ & Hd).
    by injection Hd as <-.
  - apply ModeFacts.type_bit_not_regular.
Qed.

Lemma GetDigest_regular_only_witness :
  GetDigest sample.ext sample.disk "/a/link" false
    = Err (Errorf "can't compute hash of non-regular file")
  /\ GetDigest sample.ext sample.disk "/a" true
    = Err (Errorf "can't compute hash of non-regular file")
  /\ exists info, Lstat sample.disk "/a/1.txt" = OK info
                  /\ IsRegular (fi_Mode info) = true
                  /\ 9 = fi_Size info.
Proof.
  split; [|split].
  - apply (proj1 (GetDigest_regular_only sample.ext sample.disk "/a/link" false)
             (mkFileInfo (Mode sample.link) 0)); vm_compute; reflexivity.
  - apply (proj1 (GetDigest_regular_only sample.ext sample.disk "/a" true)
             (mkFileInfo (Mode sample.dir) 0)); vm_compute; reflexivity.
  - apply (proj1 (proj2 (GetDigest_regular_only sample.ext sample.disk
                           "/a/1.txt" false))
             (entity.mkFileDigest ".txt" 9 "fcbf43926")).
    vm_compute. reflexivity.
Defined.

End Hashing.

(** ** Worker count *)

Module Parallelism.
Import main.

(** C8. With the parallelism option left at its default (zero), the worker
    count is the number of processors minus one when that number is greater
    than one, and one otherwise, that is [max (NumCPU - 1) 1]; whatever the
    option, the worker count is at least one. *)
Theorem getParallelism_default (p : N) (NumCPU : Z) :
  getParallelism defaultParallelismValue NumCPU
    = (if 1 <? NumCPU then NumCPU - 1 else 1)
  /\ getParallelism defaultParallelismValue NumCPU = Z.max (NumCPU - 1) 1
  /\ 1 <= getParallelism p NumCPU.
Proof.
  unfold getParallelism, defaultParallelismValue, Ternary.
  rewrite Z.gtb_ltb. cbn [N.eqb].
  destruct (Z.ltb_spec 1 NumCPU), (N.eqb_spec p 0); lia.
Qed.

End Parallelism.

(** ** Removal *)

Module RemovalFacts.
Import entity main spec.

(** The two nested loops visit exactly the paths at an index above 0, in
    order. *)
Lemma removeFrom_S (i : nat) (paths : list string)
    (st : gmap string os.File * option error) :
  removeFrom (S i) paths st = fold_left removeStep paths st.
Proof.
  revert i st. induction paths as [|path rest IH]; intros i st; [done|].
  simpl. apply IH.
Qed.

Lemma removeFrom_0 (paths : list string)
    (st : gmap string os.File * option error) :
  removeFrom 0 paths st = fold_left removeStep (tail paths) st.
Proof. destruct paths as [|path rest]; [done|]. simpl. apply removeFrom_S. Qed.

Lemma removeGroups_fold (gs : Groups)
    (st : gmap string os.File * option error) :
  removeGroups gs st = fold_left removeStep (laterPaths gs) st.
Proof.
  revert st. induction gs as [|[d paths] more IH]; intros st; [done|].
  simpl. rewrite fold_left_app, IH, removeFrom_0. done.
Qed.

(** One [os.Remove]. *)
Lemma Remove_lookup (fs : gmap string os.File) (path q : string) :
  (os.Remove fs path).1 !! q
  = if decide (q = path) then afterRemove fs q else fs !! q.
Proof.
  unfold os.Remove, afterRemove.
  destruct (decide (q = path)) as [->|Hne].
  - destruct (fs !! path) as [f|] eqn:Hf; simpl; [|done].
    destruct (os.Removable f); simpl; [apply lookup_delete_eq | done].
  - destruct (fs !! path) as [f|]; simpl; [|done].
    destruct (os.Removable f); simpl; [by apply lookup_delete_ne | done].
Qed.

Lemma afterRemove_Remove (fs : gmap string os.File) (path q : string) :
  afterRemove (os.Remove fs path).1 q = afterRemove fs q.
Proof.
  unfold afterRemove at 1. rewrite Remove_lookup.
  destruct (decide (q = path)) as [->|Hne]; [|done].
  unfold afterRemove. destruct (fs !! path) as [f|]; [|done].
  destruct (os.Removable f) eqn:Hr; [done|]. by rewrite Hr.
Qed.

(** The file system after a run of removals. *)
Lemma fold_removeStep_lookup (targets : list string)
    (st : gmap string os.File * option error) (q : string) :
  (fold_left removeStep targets st).1 !! q
  = if decide (q ∈ targets) then afterRemove st.1 q else st.1 !! q.
Proof.
  revert st. induction targets as [|t ts IH]; intros st.
  - simpl. destruct (decide (q ∈ [])) as [Hin|]; [|done]. by inversion Hin.
  - simpl. rewrite IH. unfold removeStep at 1 2. cbn [fst].
    rewrite afterRemove_Remove, Remove_lookup.
    destruct (decide (q ∈ ts)) as [Hin|Hnin].
    + rewrite decide_True by (by right). done.
    + destruct (decide (q = t)) as [->|Hne].
      * rewrite decide_True by (by left). done.
      * rewrite decide_False; [done|].
        intros [?|?]%elem_of_cons; contradiction.
Qed.

(** [multierr.Append] concatenates what its arguments combine. *)
Lemma Errors_Append (a b : option error) :
  multierr.Errors (multierr.Append a b)
  = multierr.Errors a ++ multierr.Errors b.
Proof.
  destruct a as [ea|], b as [eb|]; simpl; try done.
  by rewrite app_nil_r.
Qed.

Lemma Errors_Remove (fs : gmap string os.File) (path : string) :
  multierr.Errors (os.Remove fs path).2
  = match (os.Remove fs path).2 with Some e => [e] | None => [] end.
Proof.
  unfold os.Remove. destruct (fs !! path) as [f|]; [|done].
  by destruct (os.Removable f).
Qed.

Lemma Remove_error_agree (fs1 fs2 : gmap string os.File) (path : string) :
  fs1 !! path = fs2 !! path -> (os.Remove fs1 path).2 = (os.Remove fs2 path).2.
Proof.
  intros Heq. unfold os.Remove. rewrite Heq.
  destruct (fs2 !! path) as [f|]; [|done]. by destruct (os.Removable f).
Qed.

Lemma removeErrors_cons (fs : gmap string os.File) (p : string)
    (ps : list string) :
  removeErrors fs (p :: ps)
  = match (os.Remove fs p).2 with
    | Some e => e :: removeErrors fs ps
    | None => removeErrors fs ps
    end.
Proof. reflexivity. Qed.

Lemma removeErrors_agree (fs1 fs2 : gmap string os.File) (paths : list string) :
  (forall q, q ∈ paths -> fs1 !! q = fs2 !! q) ->
  removeErrors fs1 paths = removeErrors fs2 paths.
Proof.
  induction paths as [|p ps IH]; intros Hag; [done|].
  rewrite !removeErrors_cons.
  rewrite (Remove_error_agree fs1 fs2 p) by (apply Hag; by left).
  rewrite IH; [done|]. intros q Hq. apply Hag. by right.
Qed.

(** The combined error after a run of removals over distinct paths: every
    failure, in order. *)
Lemma fold_removeStep_errors (targets : list string)
    (st : gmap string os.File * option error) :
  NoDup targets ->
  multierr.Errors (fold_left removeStep targets st).2
  = multierr.Errors st.2 ++ removeErrors st.1 targets.
Proof.
  revert st. induction targets as [|t ts IH]; intros st Hnd.
  - simpl. by rewrite app_nil_r.
  - apply NoDup_cons in Hnd as [Hnin Hnd]. cbn [fold_left]. rewrite (IH _ Hnd).
    unfold removeStep. cbn [fst snd].
    rewrite Errors_Append, Errors_Remove, <- app_assoc. f_equal.
    rewrite (removeErrors_agree (os.Remove st.1 t).1 st.1 ts).
    + rewrite removeErrors_cons. by destruct ((os.Remove st.1 t).2).
    + intros q Hq. rewrite Remove_lookup.
      rewrite decide_False; [done|]. by intros ->.
Qed.

(** Paths of a sequence of groups. *)
Lemma laterPaths_sublist (gs : Groups) : laterPaths gs `sublist_of` allPaths gs.
Proof.
  induction gs as [|[d paths] more IH]; [done|].
  simpl. apply sublist_app; [|done].
  destruct paths as [|p rest]; [done|]. simpl. by apply sublist_cons.
Qed.

Lemma group_paths_allPaths (gs : Groups) (d : FileDigest)
    (paths : list string) (q : string) :
  (d, paths) ∈ gs -> q ∈ paths -> q ∈ allPaths gs.
Proof.
  induction gs as [|[d' paths'] more IH]; intros Hg Hq; [by inversion Hg|].
  simpl. apply elem_of_app. apply elem_of_cons in Hg as [Heq|Hg].
  - injection Heq as <- <-. by left.
  - right. by apply IH.
Qed.

Lemma group_tail_laterPaths (gs : Groups) (d : FileDigest)
    (paths : list string) (q : string) :
  (d, paths) ∈ gs -> q ∈ tail paths -> q ∈ laterPaths gs.
Proof.
  induction gs as [|[d' paths'] more IH]; intros Hg Hq; [by inversion Hg|].
  simpl. apply elem_of_app. apply elem_of_cons in Hg as [Heq|Hg].
  - injection Heq as <- <-. by left.
  - right. by apply IH.
Qed.

(** With pairwise distinct paths, the path at index 0 of a group is not at
    an index above 0 anywhere. *)
Lemma head_not_later (gs : Groups) (d : FileDigest) (p : string)
    (rest : list string) :
  NoDup (allPaths gs) -> (d, p :: rest) ∈ gs -> p ∉ laterPaths gs.
Proof.
  induction gs as [|[d' paths'] more IH]; intros Hnd Hg; [by inversion Hg|].
  simpl in *. apply NoDup_app in Hnd as (Hnd1 & Hdisj & Hnd2).
  intros [Hin|Hin]%elem_of_app.
  - apply elem_of_cons in Hg as [Heq|Hg].
    + injection Heq as <- <-. simpl in Hin.
      apply NoDup_cons in Hnd1 as [Hnin _]. contradiction.
    + apply (Hdisj p).
      * destruct paths' as [|p' rest']; [by inversion Hin|]. by right.
      * eapply group_paths_allPaths; [exact Hg | by left].
  - apply elem_of_cons in Hg as [Heq|Hg].
    + injection Heq as <- <-. apply (Hdisj p); [by left|].
      by apply (sublist_subseteq _ _ (laterPaths_sublist more)).
    + by apply IH.
Qed.

End RemovalFacts.

Module Removal.
Import entity main spec RemovalFacts.

Lemma RemoveDuplicates_fold (duplicates : Groups) (fs : gmap string os.File) :
  RemoveDuplicates duplicates fs
  = fold_left removeStep (laterPaths duplicates) (fs, None).
Proof. apply removeGroups_fold. Qed.

Lemma ascending_lexFirst (p : string) (rest : list string) :
  ascending (p :: rest) -> lexFirst (p :: rest) p.
Proof.
  intros [_ Hall]%StronglySorted_inv. split; [by left|].
  intros q [->|Hq]%elem_of_cons.
  - by destruct (String.leb_total p p).
  - by apply (proj1 (Forall_forall _ _) Hall).
Qed.

(** What [RemoveDuplicates] does on its own, for a store whose paths are
    pairwise distinct: it retains the path at index 0 of every group's list
    as it is handed over, which is the lexicographically first path when
    the list is in ascending order, and deletes every other path of the
    group unless [os.Remove] fails on it.  The error returned combines every
    deletion error, in order, and a failure stops nothing. *)
Theorem RemoveDuplicates_keeps_index_0 (duplicates : Groups)
    (fs : gmap string os.File) :
  NoDup (allPaths duplicates) ->
  (forall d p rest, (d, p :: rest) ∈ duplicates ->
     (RemoveDuplicates duplicates fs).1 !! p = fs !! p
     /\ (forall q, q ∈ rest ->
           (RemoveDuplicates duplicates fs).1 !! q = afterRemove fs q)
     /\ (ascending (p :: rest) -> lexFirst (p :: rest) p))
  /\ multierr.Errors (RemoveDuplicates duplicates fs).2
     = removeErrors fs (laterPaths duplicates).
Proof.
  intros Hnd. rewrite RemoveDuplicates_fold. split.
  - intros d p rest Hg. rewrite !fold_removeStep_lookup. cbn [fst].
    split; [|split].
    + rewrite decide_False; [done|]. by eapply head_not_later.
    + intros q Hq. rewrite fold_removeStep_lookup. cbn [fst].
      rewrite decide_True; [done|].
      by apply (group_tail_laterPaths duplicates d (p :: rest)).
    + apply ascending_lexFirst.
  - rewrite fold_removeStep_errors; [done|].
    eapply sublist_NoDup; [exact Hnd | apply laterPaths_sublist].
Qed.

Lemma RemoveDuplicates_keeps_index_0_witness :
  ((RemoveDuplicates sample.pair sample.pairDisk).1 !! "/a/2.txt"
     = Some sample.small
   /\ (RemoveDuplicates sample.pair sample.pairDisk).1 !! "/a/1.txt" = None)
  /\ (RemoveDuplicates sample.triple sample.tripleDisk).1 !! "/b/2.txt"
     = Some sample.small
  /\ (RemoveDuplicates sample.triple sample.tripleDisk).1 !! "/b/1.txt"
     = Some sample.pinned
  /\ (RemoveDuplicates sample.triple sample.tripleDisk).1 !! "/b/3.txt" = None
  /\ multierr.Errors (RemoveDuplicates sample.triple sample.tripleDisk).2
     = [PathError "remove" "/b/1.txt" EACCES].
Proof.
  split.
  - assert (Hnd : NoDup (allPaths sample.pair))
      by (refine (bool_decide_unpack _ _); vm_compute; exact I).
    assert (Hg : (sample.digest, ["/a/2.txt"; "/a/1.txt"]%string)
                 ∈ sample.pair) by (by left).
    destruct (proj1 (RemoveDuplicates_keeps_index_0 sample.pair
                       sample.pairDisk Hnd) _ _ _ Hg) as (Hkeep & Hrest & _).
    split; [exact (eq_trans Hkeep eq_refl)|].
    refine (eq_trans (Hrest "/a/1.txt"%string _) eq_refl). by left.
  - assert (Hnd : NoDup (allPaths sample.triple))
      by (refine (bool_decide_unpack _ _); vm_compute; exact I).
    assert (Hg : (sample.digest, ["/b/2.txt"; "/b/1.txt"; "/b/3.txt"]%string)
                 ∈ sample.triple) by (by left).
    destruct (RemoveDuplicates_keeps_index_0 sample.triple sample.tripleDisk Hnd)
      as [Hfs Herr].
    destruct (Hfs _ _ _ Hg) as (Hkeep & Hrest & _).
    split; [|split; [|split]].
    + exact (eq_trans Hkeep eq_refl).
    + refine (eq_trans (Hrest "/b/1.txt"%string _) eq_refl). by left.
    + refine (eq_trans (Hrest "/b/3.txt"%string _) eq_refl). by right; left.
    + exact (eq_trans Herr eq_refl).
Defined.

(** C1. The removal contract is that the lexicographically first path of
    every group is retained and every other path deleted, all errors being
    combined.  [RemoveDuplicates] itself never sorts: on the group
    ["/a/2.txt"; "/a/1.txt"] as collected (what it is handed after a CSV or
    JSON report) it deletes "/a/1.txt" and keeps "/a/2.txt", against the
    contract; on the slices as [getReportAsText] leaves them (the text and
    stdout reports) it deletes "/a/2.txt" and keeps "/a/1.txt", as the
    contract says. *)
Lemma RemoveDuplicates_not_lex_first :
  ((RemoveDuplicates sample.pair sample.pairDisk).1 !! "/a/1.txt" = None
   /\ (RemoveDuplicates sample.pair sample.pairDisk).1 !! "/a/2.txt"
      = Some sample.small
   /\ ~ keepsLexFirst sample.pair sample.pairDisk
          (RemoveDuplicates sample.pair sample.pairDisk).1)
  /\ ((RemoveDuplicates (getReportAsText pretty sample.pair).2
         sample.pairDisk).1 !! "/a/1.txt" = Some sample.small
      /\ (RemoveDuplicates (getReportAsText pretty sample.pair).2
            sample.pairDisk).1 !! "/a/2.txt" = None
      /\ (RemoveDuplicates (getReportAsText pretty sample.pair).2
            sample.pairDisk).2 = None).
Proof.
  split; [|repeat split; vm_compute; reflexivity].
  split; [reflexivity|]. split; [reflexivity|].
  intros Hclaim.
  destruct (Hclaim sample.digest ["/a/2.txt"; "/a/1.txt"]%string
              "/a/1.txt"%string) as [Hkept _].
  - by left.
  - split; [by right; left|].
    intros q Hq. repeat (apply elem_of_cons in Hq as [->|Hq]); [done..|].
    by inversion Hq.
  - discriminate Hkept.
Qed.

(** C10, as the claim states it, fails: when a group lists the path at its
    index 0 a second time, [RemoveDuplicates] deletes it. *)
Lemma RemoveDuplicates_removes_repeated_first :
  (sample.digest, ["/a/1.txt"; "/a/1.txt"]%string) ∈ sample.repeated
  /\ sample.pairDisk !! "/a/1.txt" = Some sample.small
  /\ (RemoveDuplicates sample.repeated sample.pairDisk).1 !! "/a/1.txt" = None
  /\ ~ keepsIndex0 sample.repeated sample.pairDisk
         (RemoveDuplicates sample.repeated sample.pairDisk).1.
Proof.
  split; [by left|]. split; [reflexivity|]. split; [reflexivity|].
  intros Hclaim.
  specialize (Hclaim sample.digest ["/a/1.txt"; "/a/1.txt"]%string
                "/a/1.txt"%string ltac:(by left) eq_refl).
  discriminate Hclaim.
Qed.

(** C10, as amended. On a store whose paths are pairwise distinct,
    [RemoveDuplicates] never deletes the first element of a group's path
    list as iterated from the store: for every group, [os.Remove] is not
    called on the path at index 0 and that path is on the file system
    afterwards exactly as before, whatever the order of the list and whether
    or not other deletions fail. *)
Theorem RemoveDuplicates_never_removes_first (duplicates : Groups)
    (fs : gmap string os.File) (d : FileDigest) (paths : list string)
    (p : string) :
  NoDup (allPaths duplicates) ->
  (d, paths) ∈ duplicates -> paths !! 0%nat = Some p ->
  (p ∉ laterPaths duplicates)
  /\ (RemoveDuplicates duplicates fs).1 !! p = fs !! p.
Proof.
  intros Hnd Hg Hp. destruct paths as [|p' rest]; [discriminate|].
  injection Hp as ->.
  assert (Hnot : p ∉ laterPaths duplicates) by (by eapply head_not_later).
  split; [done|].
  rewrite RemoveDuplicates_fold, fold_removeStep_lookup. cbn [fst].
  by rewrite decide_False.
Qed.

Lemma RemoveDuplicates_never_removes_first_witness :
  (RemoveDuplicates sample.triple sample.tripleDisk).1 !! "/b/2.txt"
    = sample.tripleDisk !! "/b/2.txt"
  /\ multierr.Errors (RemoveDuplicates sample.triple sample.tripleDisk).2 ≠ [].
Proof.
  split.
  - apply (RemoveDuplicates_never_removes_first sample.triple
             sample.tripleDisk sample.digest
             ["/b/2.txt"; "/b/1.txt"; "/b/3.txt"]%string "/b/2.txt"%string).
    + refine (bool_decide_unpack _ _); vm_compute; exact I.
    + by left.
    + reflexivity.
  - discriminate.
Defined.

End Removal.

(** ** Grouping store and statistics *)

Module StoreFacts.
Import entity service spec.

Lemma data_add (m : DigestToFiles) (d d' : FileDigest) (p : string) :
  data (add m d p) !! d'
  = if decide (d = d') then Some (default [] (data m !! d) ++ [p])
    else data m !! d'.
Proof.
  unfold add. destruct (data m !! d) as [paths|] eqn:Hd; simpl;
    destruct (decide (d = d')) as [<-|Hne];
    by rewrite ?lookup_insert_eq, ?lookup_insert_ne.
Qed.

Lemma keys_add (m : DigestToFiles) (d : FileDigest) (p : string) :
  keys (add m d p)
  = match data m !! d with
    | Some _ => keys m
    | None => keys m ++ [d]
    end.
Proof. unfold add. by destruct (data m !! d). Qed.

Lemma collect_snoc (hashed : list (FileDigest * string)) (d : FileDigest)
    (p : string) :
  collect (hashed ++ [(d, p)]) = add (collect hashed) d p.
Proof. unfold collect. by rewrite fold_left_app. Qed.

Lemma pathsOf_snoc (d' : FileDigest) (hashed : list (FileDigest * string))
    (d : FileDigest) (p : string) :
  pathsOf d' (hashed ++ [(d, p)])
  = pathsOf d' hashed ++ (if decide (d = d') then [p] else []).
Proof.
  unfold pathsOf. rewrite filter_app, fmap_app. f_equal.
  rewrite filter_cons, filter_nil. simpl.
  by destruct (decide (d = d')).
Qed.

(** What the store holds for a digest: the paths hashed to it, in order,
    and no entry at all when there is none. *)
Lemma data_collect (hashed : list (FileDigest * string)) (d : FileDigest) :
  data (collect hashed) !! d
  = match pathsOf d hashed with
    | [] => None
    | paths => Some paths
    end.
Proof.
  induction hashed as [|[d0 p0] hashed IH] using rev_ind; [done|].
  rewrite collect_snoc, data_add, pathsOf_snoc.
  destruct (decide (d0 = d)) as [->|Hne].
  - rewrite IH. destruct (pathsOf d hashed); done.
  - by rewrite IH, app_nil_r.
Qed.

(** The keys are the digests that have an entry, each once. *)
Lemma keys_collect (hashed : list (FileDigest * string)) :
  NoDup (keys (collect hashed))
  /\ forall d, d ∈ keys (collect hashed) <-> is_Some (data (collect hashed) !! d).
Proof.
  induction hashed as [|[d0 p0] hashed [IHnd IHdom]] using rev_ind.
  - split; [constructor|]. intros d. simpl. rewrite lookup_empty.
    split; [by intros ?%elem_of_nil | by intros [? ?]].
  - rewrite collect_snoc, keys_add. split.
    + destruct (data (collect hashed) !! d0) eqn:Hd0; [done|].
      apply NoDup_app. split; [done|]. split; [|apply NoDup_singleton].
      intros d Hin ->%list_elem_of_singleton.
      apply IHdom in Hin as [? ?]. congruence.
    + intros d. rewrite data_add.
      destruct (decide (d0 = d)) as [<-|Hne].
      * split; [by eauto|]. intros _.
        destruct (data (collect hashed) !! d0) eqn:Hd0.
        -- apply IHdom. by rewrite Hd0.
        -- apply elem_of_app. right. by left.
      * rewrite <- IHdom.
        destruct (data (collect hashed) !! d0); [done|].
        rewrite elem_of_app, list_elem_of_singleton.
        split; [by intros [?|?] | by left].
Qed.

(** A reported group is an entry of the store with two or more paths. *)
Lemma elem_of_groups (m : DigestToFiles) (d : FileDigest)
    (paths : list string) :
  (d, paths) ∈ groups m
  <-> d ∈ keys m /\ data m !! d = Some paths /\ (2 <= length paths)%nat.
Proof.
  unfold groups. split.
  - intros (k & Hk%list_elem_of_In & Hin)%list_elem_of_In%in_flat_map.
    destruct (data m !! k) as [ps|] eqn:Hd; [|by destruct Hin].
    destruct (Nat.leb_spec 2 (length ps)); [|by destruct Hin].
    destruct Hin as [Heq|[]]. injection Heq as <- <-. done.
  - intros (Hk & Hd & Hlen). apply list_elem_of_In, in_flat_map.
    exists d. split; [by apply list_elem_of_In|].
    rewrite Hd. destruct (Nat.leb_spec 2 (length paths)); [by left | lia].
Qed.

(** One pass with two running totals computes the two sums. *)
Lemma aggregate_sums (gs : Groups) :
  aggregate gs
  = (sumZ (List.map (fun g => lenZ g.2 - 1) gs),
     sumZ (List.map (fun g => FileSize g.1 * (lenZ g.2 - 1)) gs)).
Proof.
  unfold aggregate.
  enough (Hgen : forall a b,
    fold_left
      (fun acc g =>
         (acc.1 + (Z.of_nat (length g.2) - 1),
          acc.2 + (Z.of_nat (length g.2) - 1) * FileSize g.1)) gs (a, b)
    = (a + sumZ (List.map (fun g => lenZ g.2 - 1) gs),
       b + sumZ (List.map (fun g => FileSize g.1 * (lenZ g.2 - 1)) gs)))
    by (rewrite Hgen; f_equal; lia).
  induction gs as [|g gs IH]; intros a b; simpl.
  - f_equal; lia.
  - rewrite IH. unfold lenZ. f_equal; lia.
Qed.

End StoreFacts.

Module Store.
Import entity service spec StoreFacts.

(** C4. For every finalized grouping store, [totalDuplicateCount] is the
    sum over the reported groups of the number of paths minus one, and
    [savingsBytes] the sum over the reported groups of the digest's size
    times the number of paths minus one. *)
Theorem statistics_are_sums (m : DigestToFiles) :
  totalDuplicateCount m
    = sumZ (List.map (fun g => lenZ g.2 - 1) (duplicateGroups m))
  /\ savingsBytes m
    = sumZ (List.map (fun g => FileSize g.1 * (lenZ g.2 - 1))
              (duplicateGroups m)).
Proof.
  unfold totalDuplicateCount, savingsBytes, duplicateGroups.
  by rewrite aggregate_sums.
Qed.

(** The scenario of the specification: three files of one 10-byte content
    and one extension, hashed in fast mode, give one group of three paths,
    two duplicates and 20 bytes to save. *)
Example three_copies :
  let hashed :=
    hashFiles sample.ext sample.copiesDisk false sample.copiesPaths in
  duplicateGroups (collect hashed)
    = [(mkFileDigest ".txt" 10 "fa684c7c6",
        ["/c/1.txt"; "/c/2.txt"; "/c/3.txt"]%string)]
  /\ totalDuplicateCount (collect hashed) = 2
  /\ savingsBytes (collect hashed) = 20.
Proof. split; [|split]; vm_compute; reflexivity. Qed.

(** C5. Every group of [duplicateGroups] has at least two paths: a digest
    that exactly one file has does not appear in it, and as long as a digest
    is a key of the store its path list is not empty. *)
Theorem groups_have_two_paths (hashed : list (FileDigest * string)) :
  (forall d paths, (d, paths) ∈ duplicateGroups (collect hashed) ->
     (2 <= length paths)%nat)
  /\ (forall d p, pathsOf d hashed = [p] ->
        forall paths, (d, paths) ∉ duplicateGroups (collect hashed))
  /\ (forall d, d ∈ keys (collect hashed) ->
        exists p rest, data (collect hashed) !! d = Some (p :: rest)).
Proof.
  unfold duplicateGroups. split; [|split].
  - intros d paths (_ & _ & Hlen)%elem_of_groups. done.
  - intros d p Hone paths (_ & Hd & Hlen)%elem_of_groups.
    rewrite data_collect, Hone in Hd. injection Hd as <-. simpl in Hlen. lia.
  - intros d Hk. apply (proj2 (keys_collect hashed)) in Hk as [paths Hd].
    rewrite Hd. rewrite data_collect in Hd.
    destruct (pathsOf d hashed) as [|p rest]; [discriminate|].
    injection Hd as <-. eauto.
Qed.

(** Every file is hashed once, so the paths handed to [collect] are
    pairwise distinct; the groups then list pairwise distinct paths, which
    is what the removal theorems ask of a store. *)
Lemma hashed_digest_unique (hashed : list (FileDigest * string))
    (d1 d2 : FileDigest) (q : string) :
  NoDup hashed.*2 -> (d1, q) ∈ hashed -> (d2, q) ∈ hashed -> d1 = d2.
Proof.
  induction hashed as [|[d p] hashed IH]; intros Hnd H1 H2; [by inversion H1|].
  rewrite fmap_cons in Hnd. apply NoDup_cons in Hnd as [Hnin Hnd]. simpl in Hnin.
  apply elem_of_cons in H1 as [E1|H1], H2 as [E2|H2].
  - congruence.
  - injection E1 as -> ->. destruct Hnin.
    apply list_elem_of_fmap. by exists (d2, p).
  - injection E2 as -> ->. destruct Hnin.
    apply list_elem_of_fmap. by exists (d1, p).
  - by apply IH.
Qed.

Lemma elem_of_pathsOf (d : FileDigest) (hashed : list (FileDigest * string))
    (q : string) :
  q ∈ pathsOf d hashed <-> (d, q) ∈ hashed.
Proof.
  unfold pathsOf. rewrite list_elem_of_fmap. split.
  - intros ([d' q'] & -> & [Hd Hin]%list_elem_of_filter). simpl in Hd.
    by subst d'.
  - intros Hin. exists (d, q). split; [done|]. by apply list_elem_of_filter.
Qed.

Lemma pathsOf_NoDup (d : FileDigest) (hashed : list (FileDigest * string)) :
  NoDup hashed.*2 -> NoDup (pathsOf d hashed).
Proof.
  intros Hnd. eapply sublist_NoDup; [exact Hnd|].
  unfold pathsOf. apply fmap_sublist, sublist_filter.
Qed.

Lemma collect_paths_distinct (hashed : list (FileDigest * string)) :
  NoDup hashed.*2 -> NoDup (allPaths (duplicateGroups (collect hashed))).
Proof.
  intros Hnd. unfold duplicateGroups, groups.
  destruct (keys_collect hashed) as [Hkeys _].
  set (m := collect hashed) in *.
  assert (Hdata : forall k ps, data m !! k = Some ps -> ps = pathsOf k hashed).
  { intros k ps Hk. unfold m in Hk. rewrite data_collect in Hk.
    destruct (pathsOf k hashed); [discriminate | congruence]. }
  induction (keys m) as [|k ks IH]; [constructor|].
  apply NoDup_cons in Hkeys as [Hk Hks]. cbn [flat_map].
  unfold allPaths in *. rewrite flat_map_app. apply NoDup_app.
  split; [|split; [|by apply IH]].
  - destruct (data m !! k) as [ps|] eqn:Hd; [|constructor].
    destruct (2 <=? length ps)%nat; simpl; [|constructor].
    rewrite app_nil_r, (Hdata _ _ Hd). by apply pathsOf_NoDup.
  - intros q Hq Hq'. destruct (data m !! k) as [ps|] eqn:Hd; [|by inversion Hq].
    destruct (2 <=? length ps)%nat; simpl in Hq; [|by inversion Hq]. rewrite app_nil_r, (Hdata _ _ Hd) in Hq.
    apply elem_of_pathsOf in Hq.
    apply list_elem_of_In, in_flat_map in Hq' as ([k' ps'] & Hg & Hin).
    apply in_flat_map in Hg as (k'' & Hk'' & Hg).
    destruct (data m !! k'') as [ps''|] eqn:Hd''; [|by destruct Hg].
    destruct (2 <=? length ps'')%nat; [|by destruct Hg].
    destruct Hg as [Heq|[]]. injection Heq as -> ->. simpl in Hin.
    rewrite (Hdata _ _ Hd'') in Hin.
    apply list_elem_of_In, elem_of_pathsOf in Hin.
    rewrite (hashed_digest_unique hashed k k' q Hnd Hq Hin) in Hk.
    by apply list_elem_of_In in Hk''.
Qed.

End Store.

(** ** From hashing results to removal *)

Module Pipeline.
Import entity service main spec RemovalFacts.

(** On the groups of a store collected from files hashed once each,
    removal leaves the first path of every group as it was. *)
Lemma collected_store_keeps_first (hashed : list (FileDigest * string))
    (fs : gmap string os.File) (d : FileDigest) (p : string)
    (rest : list string) :
  NoDup hashed.*2 ->
  (d, p :: rest) ∈ duplicateGroups (collect hashed) ->
  (RemoveDuplicates (duplicateGroups (collect hashed)) fs).1 !! p = fs !! p.
Proof.
  intros Hnd Hg. unfold RemoveDuplicates.
  rewrite removeGroups_fold, fold_removeStep_lookup. cbn [fst].
  rewrite decide_False; [done|].
  eapply head_not_later; [|exact Hg]. by apply Store.collect_paths_distinct.
Qed.

End Pipeline.

(* ===================================================================== *)
(** * Further properties of the embedded code                             *)
(* ===================================================================== *)

(** ** Reads that fail *)

Module ReadFacts.
Import os service spec HashingEngine.

(** Every outcome of a [ReadAt] for a non-empty buffer. *)
Lemma ReadAt_cases (file : list byte) (n off : Z) :
  0 < n ->
  ReadAt file n off
  = if off <? 0 then Err (PathError "readat" "" ENegativeOffset)
    else if lenZ file <? off + n then Err EOF
    else OK (bytesAt off n file).
Proof.
  intros Hn. destruct (Z.ltb_spec off 0) as [Hneg|Hoff].
  - unfold ReadAt. by destruct (Z.ltb_spec off 0); [|lia].
  - destruct (Z.ltb_spec (lenZ file) (off + n)) as [Hshort|Hfit].
    + by apply ReadAt_short.
    + apply ReadAt_within. unfold within; simpl. lia.
Qed.

(** Every outcome of [readCrucialBytes] once the file is open. *)
Lemma readCrucialBytes_cases (fs : gmap string File) (path : string)
    (file : list byte) (fileSize : Z) :
  Open fs path = OK file ->
  readCrucialBytes fs path fileSize
  = if lenZ file <? 8192 then
      Err (Wrap "couldn't read first few bytes (maybe file is corrupted?)" EOF)
    else if fileSize ÷ 2 <? 0 then
      Err (Wrap "couldn't read middle bytes (maybe file is corrupted?)"
             (PathError "readat" "" ENegativeOffset))
    else if lenZ file <? fileSize ÷ 2 + 4096 then
      Err (Wrap "couldn't read middle bytes (maybe file is corrupted?)" EOF)
    else if fileSize - 4096 <? 0 then
      Err (Wrap "couldn't read end bytes (maybe file is corrupted?)"
             (PathError "readat" "" ENegativeOffset))
    else if lenZ file <? fileSize - 4096 + 4096 then
      Err (Wrap "couldn't read end bytes (maybe file is corrupted?)" EOF)
    else
      OK ((bytesAt 0 8192 file ++ bytesAt (fileSize ÷ 2) 4096 file)
            ++ bytesAt (fileSize - 4096) 4096 file).
Proof.
  intros Hopen. unfold readCrucialBytes. rewrite Hopen. cbn [bind].
  destruct (regions_eq fileSize) as (E1 & E2 & E3).
  rewrite E1, E2, E3. cbn [fst snd].
  rewrite !ReadAt_cases by lia.
  change (0 <? 0) with false. change (0 + 8192) with 8192.
  destruct (lenZ file <? 8192); [reflexivity|]. cbn [on_err bind].
  destruct (fileSize ÷ 2 <? 0); [reflexivity|].
  destruct (lenZ file <? fileSize ÷ 2 + 4096); [reflexivity|].
  cbn [on_err bind].
  destruct (fileSize - 4096 <? 0); [reflexivity|].
  destruct (lenZ file <? fileSize - 4096 + 4096); reflexivity.
Qed.

End ReadFacts.

Module Reads.
Import os service spec HashingEngine ReadFacts.

(** X1. Once the file is open, [readCrucialBytes] succeeds exactly when the
    file holds at least 8192 bytes and the size passed in is at least 4096
    and at most the length of the file; whenever it succeeds it returns
    16384 bytes. *)
Theorem readCrucialBytes_succeeds_iff (fs : gmap string File) (path : string)
    (file : list byte) (fileSize : Z) :
  Open fs path = OK file ->
  ((exists bytes, readCrucialBytes fs path fileSize = OK bytes)
   <-> 8192 <= lenZ file /\ 4096 <= fileSize <= lenZ file)
  /\ (forall bytes, readCrucialBytes fs path fileSize = OK bytes ->
        lenZ bytes = 16384).
Proof.
  intros Hopen. rewrite (readCrucialBytes_cases fs path file fileSize Hopen).
  assert (Hlen : 0 <= lenZ file) by (unfold lenZ; lia).
  destruct (Z.ltb_spec (lenZ file) 8192) as [H1|H1].
  { split; [split; [by intros [? ?] | lia] | discriminate]. }
  destruct (Z.ltb_spec (fileSize ÷ 2) 0) as [H2|H2].
  { split; [split; [by intros [? ?] |] | discriminate].
    intros [_ [? ?]]. Z.to_euclidean_division_equations. lia. }
  destruct (Z.ltb_spec (lenZ file) (fileSize ÷ 2 + 4096)) as [H3|H3].
  { split; [split; [by intros [? ?] |] | discriminate].
    intros [_ [? ?]]. Z.to_euclidean_division_equations. lia. }
  destruct (Z.ltb_spec (fileSize - 4096) 0) as [H4|H4].
  { split; [split; [by intros [? ?] | lia] | discriminate]. }
  destruct (Z.ltb_spec (lenZ file) (fileSize - 4096 + 4096)) as [H5|H5].
  { split; [split; [by intros [? ?] | lia] | discriminate]. }
  split; [split; [lia | by eauto] |].
  intros bytes [= <-]. unfold bytesAt.
  rewrite !lenZ_app, !lenZ_takeZ, !lenZ_dropZ. lia.
Qed.

Lemma readCrucialBytes_succeeds_iff_witness :
  (exists bytes, readCrucialBytes sample.disk "/a/big.bin" 20000 = OK bytes)
  /\ (forall bytes,
        readCrucialBytes sample.disk "/a/big.bin" 20000 = OK bytes ->
        lenZ bytes = 16384).
Proof.
  assert (Hlen : lenZ (Data sample.big) = 20000) by (vm_compute; reflexivity).
  destruct (readCrucialBytes_succeeds_iff sample.disk "/a/big.bin"
              (Data sample.big) 20000 eq_refl) as [Hiff Hall].
  split; [|exact Hall]. apply Hiff. rewrite Hlen. lia.
Defined.

(** X2. When the open file is shorter than the size passed in (it shrank
    after the stat), [readCrucialBytes] returns one of its three
    "couldn't read" errors wrapping [io.EOF], never bytes. *)
Theorem readCrucialBytes_shrunk (fs : gmap string File) (path : string)
    (file : list byte) (fileSize : Z) :
  Open fs path = OK file -> lenZ file < fileSize ->
  exists msg,
    readCrucialBytes fs path fileSize = Err (Wrap msg EOF)
    /\ msg ∈ ["couldn't read first few bytes (maybe file is corrupted?)";
              "couldn't read middle bytes (maybe file is corrupted?)";
              "couldn't read end bytes (maybe file is corrupted?)"]%string.
Proof.
  intros Hopen Hshort.
  rewrite (readCrucialBytes_cases fs path file fileSize Hopen).
  assert (Hlen : 0 <= lenZ file) by (unfold lenZ; lia).
  destruct (Z.ltb_spec (lenZ file) 8192) as [H1|H1].
  { eexists. split; [reflexivity|]. by left. }
  destruct (Z.ltb_spec (fileSize ÷ 2) 0) as [H2|H2].
  { exfalso. Z.to_euclidean_division_equations. lia. }
  destruct (Z.ltb_spec (lenZ file) (fileSize ÷ 2 + 4096)) as [H3|H3].
  { eexists. split; [reflexivity|]. by right; left. }
  destruct (Z.ltb_spec (fileSize - 4096) 0) as [H4|H4]; [lia|].
  destruct (Z.ltb_spec (lenZ file) (fileSize - 4096 + 4096)) as [H5|H5]; [|lia].
  eexists. split; [reflexivity|]. by right; right; left.
Qed.

Lemma readCrucialBytes_shrunk_witness :
  exists msg,
    readCrucialBytes sample.disk "/a/big.bin" 30000 = Err (Wrap msg EOF)
    /\ msg ∈ ["couldn't read first few bytes (maybe file is corrupted?)";
              "couldn't read middle bytes (maybe file is corrupted?)";
              "couldn't read end bytes (maybe file is corrupted?)"]%string.
Proof.
  apply (readCrucialBytes_shrunk sample.disk "/a/big.bin" (Data sample.big)).
  - reflexivity.
  - vm_compute. reflexivity.
Defined.

End Reads.

(** ** Digests *)

Module DigestFacts.
Import os service spec entity HashingEngine.

(** Slices of a list with one element replaced. *)
Lemma takeZ_insert_ge {A} (n : Z) (i : nat) (x : A) (l : list A) :
  n <= Z.of_nat i -> takeZ n (<[i:=x]> l) = takeZ n l.
Proof. intros Hn. rewrite !takeZ_firstn. apply take_insert_ge. lia. Qed.

Lemma dropZ_insert_lt {A} (n : Z) (i : nat) (x : A) (l : list A) :
  Z.of_nat i < n -> dropZ n (<[i:=x]> l) = dropZ n l.
Proof. intros Hn. rewrite !dropZ_skipn. apply drop_insert_lt. lia. Qed.

Lemma dropZ_insert_ge {A} (n : Z) (i : nat) (x : A) (l : list A) :
  n <= Z.of_nat i ->
  dropZ n (<[i:=x]> l) = <[(i - Z.to_nat n)%nat:=x]> (dropZ n l).
Proof. intros Hn. rewrite !dropZ_skipn. apply drop_insert_ge. lia. Qed.

Lemma lenZ_insert {A} (i : nat) (x : A) (l : list A) :
  lenZ (<[i:=x]> l) = lenZ l.
Proof. unfold lenZ. by rewrite length_insert. Qed.

(** No read of [readCrucialBytes] sees a byte at an unsampled offset. *)
Lemma crucialBytes_insert (content : list byte) (i : nat) (b : byte) :
  16384 < lenZ content -> unsampled (lenZ content) (Z.of_nat i) ->
  crucialBytes (<[i:=b]> content) = crucialBytes content.
Proof.
  intros Hsz Hgap. unfold crucialBytes, firstBytes, bytesAt, lastBytes.
  rewrite lenZ_insert.
  pose proof (Z.div_mod (lenZ content) 2 ltac:(lia)).
  pose proof (Z.mod_pos_bound (lenZ content) 2 ltac:(lia)).
  unfold unsampled in Hgap.
  rewrite (takeZ_insert_ge 8192) by lia.
  rewrite (dropZ_insert_lt (lenZ content - 4096)) by lia.
  f_equal. f_equal.
  destruct Hgap as [Hlow|Hhigh].
  - by rewrite dropZ_insert_lt by lia.
  - rewrite dropZ_insert_ge by lia. apply takeZ_insert_ge. lia.
Qed.

(** [fileHash] on a regular file that can be opened for reading. *)
Lemma fileHash_readable (fs : gmap string File) (path : string)
    (isThorough : bool) (f : File) :
  fs !! path = Some f -> IsRegular (Mode f) = true -> Readable f = true ->
  fileHash fs path isThorough = OK (hashString isThorough (Data f)).
Proof.
  intros Hf Hreg Hread.
  pose proof (ModeFacts.regular_opens fs path f Hf Hreg) as Hfollow.
  destruct (ModeFacts.IsRegular_not_symlink _ Hreg) as [_ Hdir].
  rewrite (fileHash_regular fs path isThorough f Hf Hreg).
  unfold hashString. change 16384 with thresholdFileSize.
  assert (HReadFile : ReadFile fs path = OK (Data f)).
  { unfold ReadFile. by rewrite Hfollow, Hread, Hdir. }
  assert (HOpen : Open fs path = OK (Data f)).
  { unfold Open. by rewrite Hfollow, Hread. }
  destruct isThorough.
  - rewrite HReadFile. reflexivity.
  - destruct (Z.leb_spec (lenZ (Data f)) thresholdFileSize) as [Hle|Hgt].
    + rewrite HReadFile. reflexivity.
    + rewrite (readCrucialBytes_reads fs path (Data f) _ HOpen eq_refl Hgt).
      rewrite (crucialBytes_reads (Data f) Hgt). reflexivity.
Qed.

Lemma fileHash_unreadable (fs : gmap string File) (path : string)
    (isThorough : bool) (f : File) :
  fs !! path = Some f -> IsRegular (Mode f) = true -> Readable f = false ->
  fileHash fs path isThorough
  = Err (Wrap "couldn't calculate hash" (PathError "open" path EACCES)).
Proof.
  intros Hf Hreg Hread.
  pose proof (ModeFacts.regular_opens fs path f Hf Hreg) as Hfollow.
  rewrite (fileHash_regular fs path isThorough f Hf Hreg).
  assert (HReadFile : ReadFile fs path = Err (PathError "open" path EACCES)).
  { unfold ReadFile. by rewrite Hfollow, Hread. }
  assert (HOpen : readCrucialBytes fs path (lenZ (Data f))
                  = Err (PathError "open" path EACCES)).
  { unfold readCrucialBytes, Open. by rewrite Hfollow, Hread. }
  destruct isThorough; [by rewrite HReadFile|].
  destruct (lenZ (Data f) <=? thresholdFileSize);
    [by rewrite HReadFile | by rewrite HOpen].
Qed.

(** A hash string comes from a readable regular file only. *)
Lemma fileHash_OK_inv (fs : gmap string File) (path : string)
    (isThorough : bool) (h : string) :
  fileHash fs path isThorough = OK h ->
  exists f, fs !! path = Some f /\ IsRegular (Mode f) = true
            /\ Readable f = true /\ h = hashString isThorough (Data f).
Proof.
  intros Hh. destruct (fs !! path) as [f|] eqn:Hf.
  - exists f. destruct (IsRegular (Mode f)) eqn:Hreg.
    + destruct (Readable f) eqn:Hread.
      * rewrite (fileHash_readable fs path isThorough f Hf Hreg Hread) in Hh.
        by injection Hh as <-.
      * by rewrite (fileHash_unreadable fs path isThorough f Hf Hreg Hread) in Hh.
    + unfold fileHash, Lstat in Hh. rewrite Hf in Hh.
      cbn [on_err bind fi_Mode] in Hh. by rewrite Hreg in Hh.
  - unfold fileHash, Lstat in Hh. by rewrite Hf in Hh.
Qed.

Lemma GetDigest_OK_inv (GetFileExt : string -> string)
    (fs : gmap string File) (path : string) (isThorough : bool)
    (d : FileDigest) :
  GetDigest GetFileExt fs path isThorough = OK d ->
  exists f, fs !! path = Some f /\ IsRegular (Mode f) = true
            /\ Readable f = true
            /\ d = mkFileDigest (GetFileExt path) (lenZ (Data f))
                     (hashString isThorough (Data f)).
Proof.
  unfold GetDigest. intros Hd.
  apply bind_OK in Hd as (info & Hinfo & Hd).
  apply bind_OK in Hd as (h & Hh & Hd).
  apply fileHash_OK_inv in Hh as (f & Hf & Hreg & Hread & ->).
  exists f. unfold Lstat in Hinfo. rewrite Hf in Hinfo.
  injection Hinfo as <-. by injection Hd as <-.
Qed.

End DigestFacts.

Module Digests.
Import os service spec entity HashingEngine DigestFacts.

(** X3. Every outcome of [GetDigest] on one state of the file system: the
    bare lstat error for a missing path, the non-regular error for anything
    but a regular file, the wrapped open error for a regular file that cannot
    be read, and otherwise the digest made of the extension of the path, the
    length of the content and the hash string of the content. *)
Theorem GetDigest_outcomes (GetFileExt : string -> string)
    (fs : gmap string File) (path : string) (isThorough : bool) :
  GetDigest GetFileExt fs path isThorough
  = match fs !! path with
    | None => Err (PathError "lstat" path ENOENT)
    | Some f =>
        if negb (IsRegular (Mode f)) then
          Err (Errorf "can't compute hash of non-regular file")
        else if negb (Readable f) then
          Err (Wrap "couldn't calculate hash" (PathError "open" path EACCES))
        else
          OK (mkFileDigest (GetFileExt path) (lenZ (Data f))
                (hashString isThorough (Data f)))
    end.
Proof.
  destruct (fs !! path) as [f|] eqn:Hf.
  - destruct (IsRegular (Mode f)) eqn:Hreg; cbn [negb].
    + destruct (Readable f) eqn:Hread; cbn [negb]; unfold GetDigest, Lstat;
        rewrite Hf; cbn [bind].
      * by rewrite (fileHash_readable fs path isThorough f Hf Hreg Hread).
      * by rewrite (fileHash_unreadable fs path isThorough f Hf Hreg Hread).
    + unfold GetDigest, fileHash, Lstat. rewrite Hf.
      cbn [bind on_err fi_Mode]. by rewrite Hreg.
  - unfold GetDigest, Lstat. by rewrite Hf.
Qed.

(** X4. Of two files that both get a digest in the same mode: equal content
    under equal extensions gives equal digests, while contents of different
    lengths, or different extensions, give different digests. *)
Theorem digests_follow_content (GetFileExt : string -> string)
    (fs : gmap string File) (p1 p2 : string) (f1 f2 : File)
    (isThorough : bool) (d1 d2 : FileDigest) :
  fs !! p1 = Some f1 -> fs !! p2 = Some f2 ->
  GetDigest GetFileExt fs p1 isThorough = OK d1 ->
  GetDigest GetFileExt fs p2 isThorough = OK d2 ->
  (Data f1 = Data f2 -> GetFileExt p1 = GetFileExt p2 -> d1 = d2)
  /\ (lenZ (Data f1) <> lenZ (Data f2) -> d1 <> d2)
  /\ (GetFileExt p1 <> GetFileExt p2 -> d1 <> d2).
Proof.
  intros Hf1 Hf2 Hd1 Hd2.
  apply GetDigest_OK_inv in Hd1 as (g1 & Hg1 & _ & _ & ->).
  apply GetDigest_OK_inv in Hd2 as (g2 & Hg2 & _ & _ & ->).
  rewrite Hf1 in Hg1. rewrite Hf2 in Hg2.
  injection Hg1 as <-. injection Hg2 as <-.
  split; [|split].
  - by intros -> ->.
  - intros Hne [= ? ? ?]. contradiction.
  - intros Hne [= ? ? ?]. contradiction.
Qed.

Lemma digests_follow_content_witness :
  GetDigest sample.ext sample.copiesDisk "/c/1.txt" false
    = OK (mkFileDigest ".txt" 10 "fa684c7c6")
  /\ GetDigest sample.ext sample.copiesDisk "/c/x.txt" false
    = OK (mkFileDigest ".txt" 9 "fcbf43926")
  /\ mkFileDigest ".txt" 10 "fa684c7c6" <> mkFileDigest ".txt" 9 "fcbf43926".
Proof.
  assert (H1 : GetDigest sample.ext sample.copiesDisk "/c/1.txt" false
               = OK (mkFileDigest ".txt" 10 "fa684c7c6"))
    by (vm_compute; reflexivity).
  assert (Hx : GetDigest sample.ext sample.copiesDisk "/c/x.txt" false
               = OK (mkFileDigest ".txt" 9 "fcbf43926"))
    by (vm_compute; reflexivity).
  split; [exact H1|]. split; [exact Hx|].
  apply (proj1 (proj2 (digests_follow_content sample.ext sample.copiesDisk
                         "/c/1.txt" "/c/x.txt" sample.tenBytes sample.small
                         false _ _ eq_refl eq_refl H1 Hx))).
  vm_compute. discriminate.
Defined.

(** X5. Fast mode is blind outside its three regions: for two readable
    regular files larger than 16 KiB that differ in one byte at an offset
    in [8192, size/2) or in [size/2 + 4096, size - 4096), [fileHash] in fast
    mode returns the same hash string. *)
Theorem fast_hash_ignores_unsampled (fs : gmap string File) (p1 p2 : string)
    (f1 f2 : File) (i : nat) (b : byte) :
  fs !! p1 = Some f1 -> fs !! p2 = Some f2 ->
  IsRegular (Mode f1) = true -> Readable f1 = true ->
  IsRegular (Mode f2) = true -> Readable f2 = true ->
  16384 < lenZ (Data f1) ->
  unsampled (lenZ (Data f1)) (Z.of_nat i) ->
  Data f2 = <[i:=b]> (Data f1) ->
  fileHash fs p1 false = fileHash fs p2 false.
Proof.
  intros Hf1 Hf2 Hreg1 Hread1 Hreg2 Hread2 Hsz Hgap Hdata.
  rewrite (fileHash_readable fs p1 false f1 Hf1 Hreg1 Hread1).
  rewrite (fileHash_readable fs p2 false f2 Hf2 Hreg2 Hread2).
  unfold hashString. rewrite Hdata, lenZ_insert.
  destruct (Z.leb_spec (lenZ (Data f1)) 16384); [lia|].
  by rewrite crucialBytes_insert.
Qed.

Lemma fast_hash_ignores_unsampled_witness :
  Data sample.bigEdited <> Data sample.big
  /\ fileHash sample.disk2 "/a/big.bin" false
     = fileHash sample.disk2 "/a/big2.bin" false.
Proof.
  split.
  - intros Heq.
    assert (Hne : Data sample.bigEdited !! Z.to_nat 9000
                  <> Data sample.big !! Z.to_nat 9000)
      by (vm_compute; discriminate).
    apply Hne. by rewrite Heq.
  - apply (fast_hash_ignores_unsampled sample.disk2 "/a/big.bin" "/a/big2.bin"
             sample.big sample.bigEdited (Z.to_nat 9000) x00);
      [reflexivity .. | | reflexivity].
    left. vm_compute. split; [discriminate | reflexivity].
Defined.

End Digests.

(** ** Hash strings *)

Module EncodingFacts.
Import os service spec entity HashingEngine.

Lemma be32_length (w : Z) : length (be32 w) = 4%nat.
Proof. reflexivity. Qed.

Lemma concat_be32_length (ws : list Z) :
  length (concat (List.map be32 ws)) = (4 * length ws)%nat.
Proof.
  induction ws as [|w ws IH]; [done|].
  cbn [List.map concat]. rewrite length_app, be32_length, IH. simpl. lia.
Qed.

Lemma block_length (h : list Z) (chunk : list byte) :
  length (sha256.block h chunk) = 8%nat.
Proof. reflexivity. Qed.

Lemma blocks_length (n : nat) (h : list Z) (p : list byte) :
  length h = 8%nat -> length (sha256.blocks n h p) = 8%nat.
Proof.
  revert h p. induction n as [|n IH]; intros h p Hh; [done|].
  cbn [sha256.blocks]. destruct p as [|b p]; [done|].
  apply IH, block_length.
Qed.

(** A SHA-256 digest has 32 bytes. *)
Lemma Sum256_length (data : list byte) :
  length (sha256.Sum256 data) = 32%nat.
Proof.
  unfold sha256.Sum256. rewrite concat_be32_length, blocks_length; done.
Qed.

(** Decoding undoes encoding, byte by byte. *)
Lemma digits_decode (v : byte) :
  exists a b,
    hex.fromHexChar (hex.digit (Z.shiftr (byte_to_Z v) 4)) = Some a
    /\ hex.fromHexChar (hex.digit (Z.land (byte_to_Z v) 15)) = Some b
    /\ byte_of_Z (Z.lor (Z.shiftl a 4) b) = v.
Proof.
  exists (Z.shiftr (byte_to_Z v) 4), (Z.land (byte_to_Z v) 15).
  destruct v; repeat split; vm_compute; reflexivity.
Qed.

Lemma DecodeString_EncodeToString (src : list byte) :
  hex.DecodeString (hex.EncodeToString src) = Some src.
Proof.
  induction src as [|v rest IH]; [done|].
  destruct (digits_decode v) as (a & b & Ha & Hb & Hv).
  cbn [hex.EncodeToString hex.DecodeString]. by rewrite Ha, Hb, IH, Hv.
Qed.

Lemma EncodeToString_inj (a b : list byte) :
  hex.EncodeToString a = hex.EncodeToString b -> a = b.
Proof.
  intros Heq. apply (f_equal hex.DecodeString) in Heq.
  rewrite !DecodeString_EncodeToString in Heq. by injection Heq.
Qed.

Lemma rawDigest_length (isThorough : bool) (content : list byte) :
  length (rawDigest isThorough content)
  = if isThorough then 32%nat else 4%nat.
Proof.
  unfold rawDigest. destruct isThorough; [apply Sum256_length|].
  by destruct (lenZ content <=? 16384).
Qed.

(** The hash string is the tag of the regime followed by the hex digits of
    the digest bytes. *)
Lemma hashString_rawDigest (isThorough : bool) (content : list byte) :
  hashString isThorough content
  = match regimeOf isThorough content with
    | Thorough => hex.EncodeToString (rawDigest isThorough content)
    | FastFull => String "f" (hex.EncodeToString (rawDigest isThorough content))
    | FastSampled => String "s" (hex.EncodeToString (rawDigest isThorough content))
    end.
Proof.
  unfold hashString, regimeOf, rawDigest. destruct isThorough; [done|].
  by destruct (lenZ content <=? 16384).
Qed.

Lemma regimeOf_Thorough (isThorough : bool) (content : list byte) :
  regimeOf isThorough content = Thorough <-> isThorough = true.
Proof.
  unfold regimeOf. destruct isThorough; [done|].
  by destruct (lenZ content <=? 16384).
Qed.

End EncodingFacts.

Module HashStrings.
Import os service spec entity HashingEngine DigestFacts EncodingFacts.

(** X6. The hash string loses nothing and mixes nothing: the strings
    [fileHash] returns for two files are equal exactly when the two files
    were hashed in the same regime (thorough, fast on the whole content,
    fast on the crucial bytes) and their digest bytes are equal. *)
Theorem hash_string_faithful (fs : gmap string File) (p1 p2 : string)
    (t1 t2 : bool) (f1 f2 : File) (h1 h2 : string) :
  fs !! p1 = Some f1 -> fs !! p2 = Some f2 ->
  fileHash fs p1 t1 = OK h1 -> fileHash fs p2 t2 = OK h2 ->
  (h1 = h2 <->
   regimeOf t1 (Data f1) = regimeOf t2 (Data f2)
   /\ rawDigest t1 (Data f1) = rawDigest t2 (Data f2)).
Proof.
  intros Hf1 Hf2 Hh1 Hh2.
  apply fileHash_OK_inv in Hh1 as (g1 & Hg1 & _ & _ & ->).
  apply fileHash_OK_inv in Hh2 as (g2 & Hg2 & _ & _ & ->).
  rewrite Hf1 in Hg1. rewrite Hf2 in Hg2.
  injection Hg1 as <-. injection Hg2 as <-.
  rewrite !hashString_rawDigest.
  pose proof (rawDigest_length t1 (Data f1)) as L1.
  pose proof (rawDigest_length t2 (Data f2)) as L2.
  pose proof (regimeOf_Thorough t1 (Data f1)) as T1.
  pose proof (regimeOf_Thorough t2 (Data f2)) as T2.
  destruct (regimeOf t1 (Data f1)), (regimeOf t2 (Data f2));
    (split; [intros Heq | intros [Hr Hd]]); try discriminate Hr;
    try discriminate Heq;
    try (by rewrite Hd);
    try (injection Heq as Heq);
    try (by apply EncodeToString_inj in Heq);
    exfalso.
  all: apply (f_equal String.length) in Heq; cbn [String.length] in Heq;
    rewrite !EncodeToString_length, L1, L2 in Heq.
  all: destruct t1, t2; try lia;
    try (by destruct (proj2 T1 eq_refl));
    try (by destruct (proj2 T2 eq_refl));
    try (by pose proof (proj1 T1 eq_refl));
    try (by pose proof (proj1 T2 eq_refl)).
Qed.

Lemma hash_string_faithful_witness :
  "fa684c7c6"%string = "fcbf43926"%string <->
  regimeOf false (Data sample.tenBytes) = regimeOf false (Data sample.small)
  /\ rawDigest false (Data sample.tenBytes)
     = rawDigest false (Data sample.small).
Proof.
  assert (H1 : fileHash sample.copiesDisk "/c/1.txt" false = OK "fa684c7c6"%string)
    by (vm_compute; reflexivity).
  assert (Hx : fileHash sample.copiesDisk "/c/x.txt" false = OK "fcbf43926"%string)
    by (vm_compute; reflexivity).
  exact (hash_string_faithful sample.copiesDisk "/c/1.txt" "/c/x.txt" false
           false sample.tenBytes sample.small _ _ eq_refl eq_refl H1 Hx).
Defined.

End HashStrings.

(** ** More on removal *)

Module RemovalMoreFacts.
Import entity main spec RemovalFacts.

Lemma Append_None (a b : option error) :
  multierr.Append a b = None <-> a = None /\ b = None.
Proof. destruct a, b; simpl; split; try done; by intros [? ?]. Qed.

Lemma Remove_error_None (fs : gmap string os.File) (q : string) :
  (os.Remove fs q).2 = None
  <-> exists f, fs !! q = Some f /\ os.Removable f = true.
Proof.
  unfold os.Remove. destruct (fs !! q) as [f|].
  - destruct (os.Removable f) eqn:Hr; simpl.
    + split; [by eauto | done].
    + split; [done|]. intros (g & [= <-] & Hg). congruence.
  - simpl. split; [done | by intros (g & ? & _)].
Qed.

(** A run of removals over distinct paths ends without error exactly when
    it started without one and every path could be removed. *)
Lemma fold_removeStep_error_None (targets : list string)
    (st : gmap string os.File * option error) :
  NoDup targets ->
  (fold_left removeStep targets st).2 = None
  <-> st.2 = None /\ forall q, q ∈ targets -> (os.Remove st.1 q).2 = None.
Proof.
  revert st. induction targets as [|t ts IH]; intros st Hnd.
  - simpl. split; [|by intros [? _]]. intros Hst. split; [done|].
    by intros q ?%elem_of_nil.
  - apply NoDup_cons in Hnd as [Hnin Hnd]. cbn [fold_left].
    rewrite (IH _ Hnd). unfold removeStep. cbn [fst snd].
    rewrite Append_None.
    assert (Hag : forall q, q ∈ ts ->
              (os.Remove (os.Remove st.1 t).1 q).2 = (os.Remove st.1 q).2).
    { intros q Hq. apply Remove_error_agree. rewrite Remove_lookup.
      rewrite decide_False; [done|]. by intros ->. }
    split.
    + intros [[Hst Ht] Hts]. split; [done|].
      intros q [->|Hq]%elem_of_cons; [done|]. rewrite <- Hag by done. by apply Hts.
    + intros [Hst Hall]. split; [split; [done | apply Hall; by left]|].
      intros q Hq. rewrite Hag by done. apply Hall. by right.
Qed.

Lemma laterPaths_nil (gs : Groups) :
  (forall d paths, (d, paths) ∈ gs -> (length paths <= 1)%nat) ->
  laterPaths gs = [].
Proof.
  induction gs as [|[d paths] more IH]; intros Hall; [done|].
  simpl. rewrite IH.
  - assert (Hlen : (length paths <= 1)%nat) by (apply (Hall d); by left).
    destruct paths as [|p [|q rest]]; [done | done | simpl in Hlen; lia].
  - intros d' paths' Hin. apply (Hall d'). by right.
Qed.

Lemma afterRemove_Some (fs : gmap string os.File) (q : string) (f : os.File) :
  afterRemove fs q = Some f -> fs !! q = Some f.
Proof.
  unfold afterRemove. destruct (fs !! q) as [g|]; [|done].
  by destruct (os.Removable g).
Qed.

Lemma afterRemove_idem (fs fs' : gmap string os.File) (q : string) :
  fs' !! q = afterRemove fs q -> afterRemove fs' q = afterRemove fs q.
Proof.
  intros Hq. unfold afterRemove at 1. rewrite Hq. unfold afterRemove.
  destruct (fs !! q) as [f|]; [|done].
  destruct (os.Removable f) eqn:Hr; [done|]. by rewrite Hr.
Qed.

End RemovalMoreFacts.

Module RemovalMore.
Import entity main spec RemovalFacts RemovalMoreFacts.

(** X7. [RemoveDuplicates] only deletes, and only paths listed at an index
    above 0: the file system it leaves is a part of the one it found, and
    every path that no group lists at an index above 0 is exactly as
    before. *)
Theorem RemoveDuplicates_only_deletes (duplicates : Groups)
    (fs : gmap string os.File) :
  (RemoveDuplicates duplicates fs).1 ⊆ fs
  /\ forall q, q ∉ laterPaths duplicates ->
       (RemoveDuplicates duplicates fs).1 !! q = fs !! q.
Proof.
  unfold RemoveDuplicates. rewrite removeGroups_fold. split.
  - apply map_subseteq_spec. intros q f.
    rewrite fold_removeStep_lookup. cbn [fst].
    destruct (decide (q ∈ laterPaths duplicates)); [|done].
    apply afterRemove_Some.
  - intros q Hq. rewrite fold_removeStep_lookup. cbn [fst].
    by rewrite decide_False.
Qed.

(** X8. On a store of pairwise distinct paths, [RemoveDuplicates] returns a
    nil error exactly when every path at an index above 0 existed and could
    be unlinked; none of these paths is then left. *)
Theorem RemoveDuplicates_nil_iff (duplicates : Groups)
    (fs : gmap string os.File) :
  NoDup (allPaths duplicates) ->
  ((RemoveDuplicates duplicates fs).2 = None
   <-> forall q, q ∈ laterPaths duplicates ->
         exists f, fs !! q = Some f /\ os.Removable f = true)
  /\ ((RemoveDuplicates duplicates fs).2 = None ->
      forall q, q ∈ laterPaths duplicates ->
        (RemoveDuplicates duplicates fs).1 !! q = None).
Proof.
  intros Hnd.
  assert (Hnd' : NoDup (laterPaths duplicates))
    by (eapply sublist_NoDup; [exact Hnd | apply laterPaths_sublist]).
  unfold RemoveDuplicates. rewrite removeGroups_fold.
  rewrite (fold_removeStep_error_None _ _ Hnd'). cbn [fst snd].
  assert (Hiff : (None = None :> option error
                  /\ (forall q, q ∈ laterPaths duplicates ->
                        (os.Remove fs q).2 = None))
                 <-> forall q, q ∈ laterPaths duplicates ->
                       exists f, fs !! q = Some f /\ os.Removable f = true).
  { split.
    - intros [_ Hall] q Hq. by apply Remove_error_None, Hall.
    - intros Hall. split; [done|]. intros q Hq.
      by apply Remove_error_None, Hall. }
  split; [exact Hiff|].
  intros Hnone q Hq. rewrite fold_removeStep_lookup. cbn [fst].
  rewrite decide_True by done.
  destruct (proj1 Hiff Hnone q Hq) as (f & Hf & Hr).
  unfold afterRemove. by rewrite Hf, Hr.
Qed.

Lemma RemoveDuplicates_nil_iff_witness :
  (RemoveDuplicates sample.pair sample.pairDisk).2 = None
  /\ (RemoveDuplicates sample.triple sample.tripleDisk).2 <> None.
Proof.
  split.
  - apply (proj1 (RemoveDuplicates_nil_iff sample.pair sample.pairDisk
                    ltac:(refine (bool_decide_unpack _ _); vm_compute; exact I))).
    intros q [->|Hq]%elem_of_cons; [|by apply elem_of_nil in Hq].
    exists sample.small. split; reflexivity.
  - intros Hnone.
    destruct (proj1 (proj1 (RemoveDuplicates_nil_iff sample.triple
                              sample.tripleDisk
                              ltac:(refine (bool_decide_unpack _ _);
                                    vm_compute; exact I)))
                Hnone "/b/1.txt"%string ltac:(by left))
      as (f & Hf & Hr).
    vm_compute in Hf. injection Hf as <-. discriminate Hr.
Defined.

(** X9. Running [RemoveDuplicates] a second time on the same groups changes
    nothing more on the file system. *)
Theorem RemoveDuplicates_twice (duplicates : Groups)
    (fs : gmap string os.File) :
  (RemoveDuplicates duplicates (RemoveDuplicates duplicates fs).1).1
  = (RemoveDuplicates duplicates fs).1.
Proof.
  unfold RemoveDuplicates. rewrite !removeGroups_fold. apply map_eq. intros q.
  rewrite (fold_removeStep_lookup _ (_, None)). cbn [fst].
  destruct (decide (q ∈ laterPaths duplicates)) as [Hin|Hnin]; [|done].
  assert (Hq : (fold_left removeStep (laterPaths duplicates) (fs, None)).1 !! q
               = afterRemove fs q).
  { rewrite fold_removeStep_lookup. cbn [fst]. by rewrite decide_True. }
  rewrite Hq. by apply afterRemove_idem.
Qed.

(** X10. On a store whose groups hold at most one path each, and so on the
    empty store, [RemoveDuplicates] touches nothing and returns nil. *)
Theorem RemoveDuplicates_no_duplicates (duplicates : Groups)
    (fs : gmap string os.File) :
  (forall d paths, (d, paths) ∈ duplicates -> (length paths <= 1)%nat) ->
  RemoveDuplicates duplicates fs = (fs, None).
Proof.
  intros Hall. unfold RemoveDuplicates.
  by rewrite removeGroups_fold, (laterPaths_nil _ Hall).
Qed.

Lemma RemoveDuplicates_no_duplicates_witness :
  RemoveDuplicates sample.singles sample.disk = (sample.disk, None)
  /\ RemoveDuplicates [] sample.disk = (sample.disk, None).
Proof.
  split.
  - apply RemoveDuplicates_no_duplicates. intros d paths Hin.
    unfold sample.singles in Hin.
    repeat (apply elem_of_cons in Hin as [[= -> ->]|Hin]; [simpl; lia|]).
    by apply elem_of_nil in Hin.
  - apply RemoveDuplicates_no_duplicates. by intros d paths ?%elem_of_nil.
Defined.

End RemovalMore.

(** ** The text report and the flags *)

Module ReportFacts.
Import entity main spec RemovalFacts.

Lemma compare_trans (c : comparison) (a b d : string) :
  String.compare a b = c -> String.compare b d = c -> String.compare a d = c.
Proof.
  revert b d. induction a as [|x a IH]; intros [|y b] [|z d]; simpl;
    try congruence.
  unfold Ascii.compare.
  destruct (N.compare_spec (N_of_ascii x) (N_of_ascii y)) as [Hxy|Hxy|Hxy];
  destruct (N.compare_spec (N_of_ascii y) (N_of_ascii z)) as [Hyz|Hyz|Hyz];
  destruct (N.compare_spec (N_of_ascii x) (N_of_ascii z)) as [Hxz|Hxz|Hxz];
  try lia; try congruence; eauto.
Qed.

#[global] Instance strLe_trans : Transitive strLe.
Proof.
  intros a b d. unfold strLe, String.leb.
  destruct (String.compare a b) eqn:Hab; [|..|discriminate];
  destruct (String.compare b d) eqn:Hbd; try discriminate; intros _ _.
  - by rewrite (compare_trans Eq a b d).
  - apply String.compare_eq_iff in Hab as ->. by rewrite Hbd.
  - apply String.compare_eq_iff in Hbd as <-. by rewrite Hab.
  - by rewrite (compare_trans Lt a b d).
Qed.

#[global] Instance strLe_total : Total strLe.
Proof. intros a b. apply String.leb_total. Qed.

#[global] Instance strLe_antisym : AntiSymm (=) strLe.
Proof. intros a b. apply String.leb_antisym. Qed.

Lemma sort_Strings_sorted (paths : list string) :
  StronglySorted strLe (sort_Strings paths).
Proof. apply StronglySorted_merge_sort; apply _. Qed.

Lemma sort_Strings_perm (paths : list string) : sort_Strings paths ≡ₚ paths.
Proof. apply merge_sort_Permutation. Qed.

(** The sorted slice does not depend on the order it started in: any
    correct sort returns it. *)
Lemma sort_Strings_unique (l1 l2 : list string) :
  l1 ≡ₚ l2 -> sort_Strings l1 = sort_Strings l2.
Proof.
  intros Hp. apply (StronglySorted_unique strLe); try apply sort_Strings_sorted.
  by rewrite !sort_Strings_perm.
Qed.





Lemma int64_small (z : Z) : - 2 ^ 63 <= z < 2 ^ 63 -> int64 z = z.
Proof. intros Hz. unfold int64. rewrite Z.mod_small; lia. Qed.

Lemma int64_range (z : Z) : - 2 ^ 63 <= int64 z < 2 ^ 63.
Proof.
  unfold int64. pose proof (Z.mod_pos_bound (z + 2 ^ 63) (2 ^ 64) ltac:(lia)).
  lia.
Qed.

End ReportFacts.

Module Report.
Import entity main spec RemovalFacts ReportFacts.



(** X12. The text report does not depend on the order in which a group's
    paths were collected: two stores with the same digests in the same
    order, each group holding the same paths in any order, give the same
    text and leave the same slices. *)
Theorem report_text_order_independent (BinaryFormat : Z -> string)
    (gs1 gs2 : Groups) :
  samePaths gs1 gs2 ->
  getReportAsText BinaryFormat gs1 = getReportAsText BinaryFormat gs2.
Proof.
  intros Hsame. unfold getReportAsText. generalize EmptyString.
  induction Hsame as [|[d1 ps1] [d2 ps2] gs1 gs2 [Hd Hp] _ IH]; intros bb;
    [done|].
  simpl in Hd, Hp. subst d2. cbn [reportGroups].
  by rewrite (sort_Strings_unique ps1 ps2 Hp), IH.
Qed.

Lemma report_text_order_independent_witness :
  getReportAsText pretty sample.pair
  = getReportAsText pretty [(sample.digest, ["/a/1.txt"; "/a/2.txt"]%string)].
Proof.
  apply report_text_order_independent. constructor; [|constructor].
  split; [done|]. apply Permutation_swap.
Defined.

(** X13. [getMinSize] is the flag value times 1024 exactly when the value
    is below 2^53; from 2^53 on the [int64] product wraps around, and the
    result is not the size that was asked for. *)
Theorem getMinSize_exact_iff (p : Z) :
  0 <= p < 2 ^ 64 ->
  (getMinSize p = p * 1024 <-> p < 2 ^ 53)
  /\ - 2 ^ 63 <= getMinSize p < 2 ^ 63.
Proof.
  intros Hp. unfold getMinSize, bytesutil.KIBI.
  split; [|apply int64_range].
  pose proof (int64_range (int64 p * 1024)) as Hr. split.
  - intros Heq. lia.
  - intros Hsmall. rewrite (int64_small p) by lia. apply int64_small. lia.
Qed.

Lemma getMinSize_exact_iff_witness :
  getMinSize 4 = 4096 /\ getMinSize (2 ^ 53) = - 2 ^ 63
  /\ getMinSize (2 ^ 54) = 0.
Proof.
  split; [|split; reflexivity].
  apply (proj2 (proj1 (getMinSize_exact_iff 4 ltac:(lia)))). lia.
Defined.

End Report.
